(** * Daily token price history: the ingestion job handler

    A shallow embedding of the worker job [handler] that appends freshly
    fetched daily prices to the [TokenDailyPriceHistoryUsd] table, and of the
    three Prisma calls it makes ([aggregate], [deleteMany], [createMany]).

    The table is a list of rows in insertion order; the unique index on
    [(token, timestamp)] is checked by [createMany], as the database does.
    The handler is given twice: as one function ([handler], an invocation
    that runs alone) and as a step machine ([step]) with one step per
    [await], so that several invocations can be interleaved on one table. *)

From Stdlib Require Import String ZArith List Bool Lia Permutation Sorted.
Import ListNotations.
Open Scope Z_scope.

(** ** Data *)

(** A JavaScript [Date]: milliseconds since the unix epoch. *)
Definition Date := Z.

(** One row of [TokenDailyPriceHistoryUsd].  The surrogate [id] column is
    never read or written by the handler and is left out. *)
Record Row := mkRow {
  row_token : string;
  row_timestamp : Date;
  row_price : Z
}.

Definition Table := list Row.

(** A row as it is handed to [createMany]: its [Date] may be the Invalid
    Date of JavaScript, [None] here. *)
Record NewRow := mkNew {
  new_token : string;
  new_timestamp : option Date;
  new_price : Z
}.

(** One element of [prices]: [timestamp] is a unix epoch in seconds;
    [price] is taken to be a whole number that the [Decimal] column holds. *)
Record PricePoint := mkPoint {
  timestamp : Z;
  price : Z
}.

(** The payload of a job, and the answer [apiCallToGetPrices] gave to it. *)
Record Job := mkJob {
  forceRefresh : bool;
  token : string;
  startTimestamp : Date;
  prices : list PricePoint
}.

(** The exceptions that can leave the handler: the [TypeError] of
    JavaScript, and what Prisma raises on a [createMany]: the unique
    constraint violation (P2002), a value too long for its column (P2000),
    and an argument that holds an Invalid Date. *)
Inductive Error :=
| TypeError
| UniqueConstraintViolation
| ValueTooLong
| InvalidDate.

(** How an invocation ends: the early [return] of step 3, the end of the
    body with both counts, or an exception. *)
Inductive Outcome :=
| Returned
| Completed (deletedCount createdCount : nat)
| Threw (e : Error).

(** ** The table operations *)

Definition of_token (tok : string) (r : Row) : bool :=
  String.eqb (row_token r) tok.

Definition rows_of (tok : string) (t : Table) : Table :=
  filter (of_token tok) t.

Definition dates_of (tok : string) (t : Table) : list Date :=
  map row_timestamp (rows_of tok t).

Fixpoint max_date (ds : list Date) : option Date :=
  match ds with
  | [] => None
  | d :: rest =>
      match max_date rest with
      | None => Some d
      | Some m => Some (Z.max d m)
      end
  end.

(** [aggregate({ _max: { timestamp: true }, where: { token } })]:
    [None] is the [null] Prisma returns when no row matches. *)
Definition aggregate_max (tok : string) (t : Table) : option Date :=
  max_date (dates_of tok t).

(** [deleteMany({ where: { token } })]: the table left and the count. *)
Definition deleteMany (tok : string) (t : Table) : Table * nat :=
  (filter (fun r => negb (of_token tok r)) t, length (rows_of tok t)).

Definition same_key (a b : Row) : bool :=
  String.eqb (row_token a) (row_token b) && (row_timestamp a =? row_timestamp b).

Definition has_key (r : Row) (t : Table) : bool :=
  existsb (same_key r) t.

(** One [INSERT] of several rows: the first row that collides with the
    unique index aborts the whole statement. *)
Fixpoint insert_all (data : list Row) (t : Table) : option Table :=
  match data with
  | [] => Some t
  | r :: rest => if has_key r t then None else insert_all rest (t ++ [r])
  end.

(** The same [INSERT] with [ON CONFLICT DO NOTHING]. *)
Fixpoint insert_skip (data : list Row) (t : Table) : Table * nat :=
  match data with
  | [] => (t, O)
  | r :: rest =>
      if has_key r t then insert_skip rest t
      else let (t', n) := insert_skip rest (t ++ [r]) in (t', S n)
  end.

(** The [INSERT] of rows the table can hold, with or without
    [ON CONFLICT DO NOTHING]. *)
Definition insert_rows (skipDuplicates : bool) (rows : list Row) (t : Table)
  : Error + Table * nat :=
  if skipDuplicates then inr (insert_skip rows t)
  else match insert_all rows t with
       | Some t' => inr (t', length rows)
       | None => inl UniqueConstraintViolation
       end.

Definition stored (r : NewRow) : option Row :=
  match new_timestamp r with
  | Some d => Some (mkRow (new_token r) d (new_price r))
  | None => None
  end.

Fixpoint all_stored (data : list NewRow) : option (list Row) :=
  match data with
  | [] => Some []
  | r :: rest =>
      match stored r, all_stored rest with
      | Some x, Some xs => Some (x :: xs)
      | _, _ => None
      end
  end.

(** [token String @db.VarChar(42)].  Tokens are taken to be ASCII, as the
    addresses they stand for, so that a byte is a character. *)
Definition fits_token (tok : string) : bool :=
  (String.length tok <=? 42)%nat.

(** [createMany({ data, skipDuplicates })].  Prisma refuses an argument
    that holds an Invalid Date before it sends anything; the database
    refuses the statement when a token does not fit its column (in the
    handler all the rows of one call carry the same token, so this is at
    the first row); then the rows go in, checked against the unique index.
    A call that fails writes nothing. *)
Definition createMany (skipDuplicates : bool) (data : list NewRow) (t : Table)
  : Error + Table * nat :=
  match all_stored data with
  | None => inl InvalidDate
  | Some rows =>
      if forallb (fun r => fits_token (row_token r)) rows
      then insert_rows skipDuplicates rows t
      else inl ValueTooLong
  end.

(** ** Dates *)

Definition day_ms : Z := 86400000.
Definition day_s : Z := 86400.

(** The time value of [new Date(timestamp * 1000)], in milliseconds. *)
Definition time_of_epoch (ts : Z) : Z := ts * 1000.

(** A [Date] holds a time value within 8.64e15 ms of the epoch; beyond,
    [new Date] gives the Invalid Date.  The [DateTime] column is taken to
    hold every [Date] that is valid. *)
Definition max_time : Z := 8640000000000000.

Definition valid_time (ms : Z) : bool :=
  (- max_time <=? ms) && (ms <=? max_time).

(** [new Date(timestamp * 1000)]: [None] is the Invalid Date. *)
Definition date_of_epoch (ts : Z) : option Date :=
  if valid_time (time_of_epoch ts) then Some (time_of_epoch ts) else None.

(** Modelled from the spec: [addOneDay] is not in the repository; the spec
    describes it as "d + 1 day" on the stored date. *)
Definition addOneDay (d : Date) : Date := d + day_ms.

(** Modelled from the spec: [unixEpoch] is not in the repository; the source
    says its result is compared with "a unix epoch timestamp", the whole
    seconds of the date. *)
Definition unixEpoch (d : Date) : Z := d / 1000.

(** What [unixEpoch(addOneDay(maxTimestamp))] can give the comparison. *)
Inductive HelperResult :=
| Yields (n : Z)
| YieldsNaN
| Raises.

(** [data: prices.map(({ price, timestamp }) => ({ timestamp: new Date(timestamp * 1000), price, token }))] *)
Definition to_data (tok : string) (p : PricePoint) : NewRow :=
  mkNew tok (date_of_epoch (timestamp p)) (price p).

Definition batch_data (j : Job) : list NewRow :=
  map (to_data (token j)) (prices j).

(** The rows that data becomes in the table, when every date is valid. *)
Definition to_row (tok : string) (p : PricePoint) : Row :=
  mkRow tok (time_of_epoch (timestamp p)) (price p).

Definition batch_rows (j : Job) : list Row :=
  map (to_row (token j)) (prices j).

(** The batch is one [createMany] can store: every date is valid and the
    token fits its column (an empty batch sends no row). *)
Definition storable (j : Job) : bool :=
  forallb (fun p => valid_time (time_of_epoch (timestamp p))) (prices j)
  && (fits_token (token j) || match prices j with [] => true | _ => false end).

(** ** The handler *)

(** The state of one invocation, between two [await]s. *)
Inductive Proc :=
| Fetching (j : Job)
| Resolving (j : Job)
| Deleting (j : Job)
| Creating (j : Job) (deletedCount : nat)
| Done (j : Job) (o : Outcome).

Section Handler.

(** The value of [unixEpoch(addOneDay(null))]: both helpers are missing
    from the repository and nothing says what they do without a date, so
    it stays a parameter. *)
Variable null_next : HelperResult.

(** The [createMany] of the handler under study has no [skipDuplicates];
    the first listing of the scenario has [skipDuplicates: true]. *)
Variable skipDuplicates : bool.

Definition expected_epoch (maxTimestamp : option Date) : HelperResult :=
  match maxTimestamp with
  | Some d => Yields (unixEpoch (addOneDay d))
  | None => null_next
  end.

(** Step 3: [nextTimestampEpoch !== unixEpoch(addOneDay(maxTimestamp))].
    [inl] is how the invocation ends there, [inr tt] lets it go on. *)
Definition validate (j : Job) (maxTimestamp : option Date) : Outcome + unit :=
  match prices j with
  | [] => inl (Threw TypeError)
  | p0 :: _ =>
      let nextTimestampEpoch := timestamp p0 in
      match expected_epoch maxTimestamp with
      | Raises => inl (Threw TypeError)
      | YieldsNaN => inl Returned
      | Yields e => if nextTimestampEpoch =? e then inr tt else inl Returned
      end
  end.

(** Step 4, second half: the [createMany] and the end of the body. *)
Definition create (j : Job) (deletedCount : nat) (t : Table) : Table * Outcome :=
  match createMany skipDuplicates (batch_data j) t with
  | inr (t', createdCount) => (t', Completed deletedCount createdCount)
  | inl e => (t, Threw e)
  end.

(** Step 4: the deletes and the creates. *)
Definition commit (j : Job) (t : Table) : Table * Outcome :=
  if forceRefresh j then
    let (t1, deletedCount) := deleteMany (token j) t in
    create j deletedCount t1
  else create j O t.

(** An invocation that runs alone on the table. *)
Definition handler (j : Job) (t : Table) : Table * Outcome :=
  match validate j (aggregate_max (token j) t) with
  | inl o => (t, o)
  | inr _ => commit j t
  end.

(** One [await] of an invocation: the database call and the code that
    follows it up to the next [await]. *)
Definition step (p : Proc) (t : Table) : Table * Proc :=
  match p with
  | Fetching j => (t, Resolving j)
  | Resolving j =>
      match validate j (aggregate_max (token j) t) with
      | inl o => (t, Done j o)
      | inr _ => (t, if forceRefresh j then Deleting j else Creating j O)
      end
  | Deleting j =>
      let (t1, deletedCount) := deleteMany (token j) t in
      (t1, Creating j deletedCount)
  | Creating j deletedCount =>
      let (t', o) := create j deletedCount t in (t', Done j o)
  | Done j o => (t, p)
  end.

(** Several invocations on one table: the scheduler picks which one makes
    its next step. *)
Definition System : Type := Table * list Proc.

Fixpoint step_nth (i : nat) (ps : list Proc) (t : Table) : Table * list Proc :=
  match ps, i with
  | [], _ => (t, [])
  | p :: rest, O => let (t', p') := step p t in (t', p' :: rest)
  | p :: rest, S i' => let (t', rest') := step_nth i' rest t in (t', p :: rest')
  end.

Fixpoint run (schedule : list nat) (s : System) : System :=
  match schedule with
  | [] => s
  | i :: rest => run rest (step_nth i (snd s) (fst s))
  end.

(** The invocations one after the other, each to its end. *)
Fixpoint run_sequential (js : list Job) (t : Table) : Table * list Outcome :=
  match js with
  | [] => (t, [])
  | j :: rest =>
      let (t1, o) := handler j t in
      let (t2, os) := run_sequential rest t1 in
      (t2, o :: os)
  end.

End Handler.

Definition is_done (p : Proc) : bool :=
  match p with Done _ _ => true | _ => false end.

Definition created_count (o : Outcome) : nat :=
  match o with Completed _ c => c | _ => O end.

Definition deleted_count (o : Outcome) : nat :=
  match o with Completed d _ => d | _ => O end.

(** ** What the claims speak about *)

(** The [createMany] of step 4 on a batch that can be stored. *)
Definition create_rows (skipDuplicates : bool) (j : Job) (deletedCount : nat) (t : Table)
  : Table * Outcome :=
  match insert_rows skipDuplicates (batch_rows j) t with
  | inr (t', createdCount) => (t', Completed deletedCount createdCount)
  | inl e => (t, Threw e)
  end.

(** What [createMany] raises on a batch that cannot be stored. *)
Definition refusal (j : Job) : Error :=
  if forallb (fun p => valid_time (time_of_epoch (timestamp p))) (prices j)
  then ValueTooLong else InvalidDate.

Definition key (r : Row) : string * Date := (row_token r, row_timestamp r).

(** The unique index holds. *)
Definition unique_keys (t : Table) : Prop := NoDup (map key t).

(** The batch passes step 3 on the table as it is read. *)
Definition accepted (null_next : HelperResult) (j : Job) (t : Table) : Prop :=
  validate null_next j (aggregate_max (token j) t) = inr tt.

(** The calendar day (UTC) of a stored date. *)
Definition day_of (d : Date) : Z := d / day_ms.

(** [n] calendar days in a row, from day [start]. *)
Fixpoint day_run (start : Z) (n : nat) : list Z :=
  match n with
  | O => []
  | S n' => start :: day_run (start + 1) n'
  end.

(** The dates fall on a run of calendar days without a gap and without a
    day taken twice, in whatever order the rows were written. *)
Definition contiguous (ds : list Date) : Prop :=
  exists start n, Permutation (map day_of ds) (day_run start n).

(** The batch the price source returns at a daily cadence: one point every
    24 hours from [start], in ascending order. *)
Fixpoint daily_from (start : Z) (ps : list PricePoint) : Prop :=
  match ps with
  | [] => True
  | p :: rest => timestamp p = start /\ daily_from (start + day_s) rest
  end.

Definition daily_batch (ps : list PricePoint) : Prop :=
  exists start, daily_from start ps.

Definition job_of (p : Proc) : Job :=
  match p with
  | Fetching j | Resolving j | Deleting j | Creating j _ | Done j _ => j
  end.

(** The jobs of the invocations that have ended, in the order of the pool. *)
Definition done_jobs (ps : list Proc) : list Job :=
  map job_of (filter is_done ps).

(** The first row of the batch is in the table already. *)
Definition first_taken (j : Job) (t : Table) : Prop :=
  match prices j with
  | [] => False
  | p0 :: _ => In (key (to_row (token j) p0)) (map key t)
  end.

(** What holds of an invocation without [forceRefresh] between two of its
    steps: past step 3, either its batch would pass step 3 again on the
    table as it is now, or its first row has been inserted by another. *)
Definition pending_ok (null_next : HelperResult) (t : Table) (p : Proc) : Prop :=
  match p with
  | Fetching j | Resolving j => forceRefresh j = false
  | Deleting _ => False
  | Creating j _ =>
      forceRefresh j = false /\ (accepted null_next j t \/ first_taken j t)
  | Done _ _ => True
  end.

(** An invocation that never deletes: no [forceRefresh], and not in the
    middle of a [deleteMany]. *)
Definition appending (p : Proc) : Prop :=
  match p with
  | Deleting _ => False
  | _ => forceRefresh (job_of p) = false
  end.

(** The invocation has ended on the unique constraint violation. *)
Definition raised_unique (p : Proc) : bool :=
  match p with
  | Done _ (Threw UniqueConstraintViolation) => true
  | _ => false
  end.

(** The dates that appends of one point a day can write after the dates
    [base] a token has: day after day from [anchor], the epoch that step 3
    asks of the first batch. *)
Definition anchor (null_next : HelperResult) (base : list Date) : Z :=
  match max_date base with
  | Some m => unixEpoch (addOneDay m)
  | None => match null_next with Yields e => e | _ => 0 end
  end.

Definition lattice_date (e0 : Z) (i : nat) : Date :=
  time_of_epoch (e0 + Z.of_nat i * day_s).

Definition lattice (e0 : Z) (r : nat) : list Date :=
  map (lattice_date e0) (seq 0 r).

(** An append for [tok] with a batch of one point a day. *)
Definition daily_append (tok : string) (j : Job) : Prop :=
  forceRefresh j = false /\ token j = tok /\ daily_batch (prices j).

(** What holds of such an append between two of its steps, on a table whose
    dates for [tok] are [base] followed by days of the lattice: past step 3,
    its batch starts on a day of the lattice that is at most the first day
    not yet stored. *)
Definition on_lattice (null_next : HelperResult) (tok : string) (base : list Date)
    (t : Table) (p : Proc) : Prop :=
  match p with
  | Fetching j | Resolving j => daily_append tok j
  | Deleting _ => False
  | Creating j _ =>
      daily_append tok j /\
      exists i, daily_from (anchor null_next base + Z.of_nat i * day_s) (prices j) /\
                (length base + i <= length (dates_of tok t))%nat
  | Done _ _ => True
  end.

(** ** The fan-out query

    The job that enqueues the handler, as the source gives it:
    [select token, max(timestamp) from "TokenDailyPriceHistoryUsd" group by
    token], kept where the day of that timestamp is before the current day.
    [today] is the current day, counted as [day_of] counts. *)

(** [group by token] with [max(timestamp)]: the rows are read one by one;
    a row of a token that has a group raises the maximum of the group, a
    row of another token opens a group. *)
Fixpoint group_row (r : Row) (groups : list (string * Date)) : list (string * Date) :=
  match groups with
  | [] => [(row_token r, row_timestamp r)]
  | (tok, m) :: rest =>
      if String.eqb (row_token r) tok then (tok, Z.max m (row_timestamp r)) :: rest
      else (tok, m) :: group_row r rest
  end.

Definition max_by_token (t : Table) : list (string * Date) :=
  fold_left (fun groups r => group_row r groups) t [].

(** The maximum of the group of [tok], when it has one. *)
Fixpoint group_find (tok : string) (groups : list (string * Date)) : option Date :=
  match groups with
  | [] => None
  | (k, m) :: rest => if String.eqb k tok then Some m else group_find tok rest
  end.

Definition fan_out (today : Z) (t : Table) : list (string * Date) :=
  filter (fun tm => day_of (snd tm) <? today) (max_by_token t).

(** The rows an invocation has deleted and created so far, as it holds
    them: [deletedCount] once the [deleteMany] has answered, both counts
    once the body has ended. *)
Definition deleted_so_far (p : Proc) : nat :=
  match p with
  | Creating _ n => n
  | Done _ o => deleted_count o
  | _ => O
  end.

Definition created_so_far (p : Proc) : nat :=
  match p with
  | Done _ o => created_count o
  | _ => O
  end.

Definition total (f : Proc -> nat) (ps : list Proc) : nat :=
  fold_right (fun p n => (f p + n)%nat) O ps.

(** ** The commit as the spec words it

    Section 4.3 of the spec, to be compared with [commit]: the deletes when
    [forceRefresh] is set; the latest date read again; the batch cut to its
    longest run of consecutive days that starts at the acceptable date (the
    day after that latest date, or the first date of the batch when the
    token has no row); an insert that skips the rows already there. *)









(** The calendar day (UTC) of a unix epoch. *)
Definition calendar_day (epoch : Z) : Z := epoch / day_s.

(** The batch has one point per calendar day, on consecutive days. *)
Definition consecutive_days (ps : list PricePoint) : Prop :=
  exists start,
    map (fun p => calendar_day (timestamp p)) ps = day_run start (length ps).

(** ** The table operations: basic facts *)

Lemma all_stored_batch (tok : string) (ps : list PricePoint) :
  all_stored (map (to_data tok) ps)
  = if forallb (fun p => valid_time (time_of_epoch (timestamp p))) ps
    then Some (map (to_row tok) ps) else None.
Proof.
  induction ps as [|p ps IH]; [reflexivity|].
  cbn [map all_stored forallb]. rewrite IH.
  unfold stored, to_data, date_of_epoch. cbn [new_timestamp new_token new_price].
  destruct (valid_time (time_of_epoch (timestamp p))); [|reflexivity].
  cbn [andb]. now destruct (forallb _ ps).
Qed.

Lemma batch_tokens_fit (tok : string) (ps : list PricePoint) :
  forallb (fun r => fits_token (row_token r)) (map (to_row tok) ps)
  = fits_token tok || match ps with [] => true | _ => false end.
Proof.
  destruct (fits_token tok) eqn:F.
  - cbn [orb]. induction ps as [|p ps IH]; [reflexivity|].
    cbn [map forallb to_row row_token]. now rewrite F, IH.
  - destruct ps as [|p ps]; [reflexivity|].
    cbn [map forallb to_row row_token orb]. now rewrite F.
Qed.

(** The [createMany] of step 4: the batch is stored as its rows, or refused
    whatever the table holds. *)
Lemma create_cases (sd : bool) (j : Job) (n : nat) (t : Table) :
  create sd j n t
  = if storable j then create_rows sd j n t else (t, Threw (refusal j)).
Proof.
  unfold create, createMany, batch_data, storable, refusal, create_rows.
  rewrite all_stored_batch.
  destruct (forallb (fun p => valid_time (time_of_epoch (timestamp p))) (prices j));
    [|reflexivity].
  cbn [andb]. fold (batch_rows j). unfold batch_rows at 1. rewrite batch_tokens_fit.
  now destruct (fits_token (token j) || match prices j with [] => true | _ => false end).
Qed.

Lemma refusal_kind (j : Job) : refusal j = ValueTooLong \/ refusal j = InvalidDate.
Proof. unfold refusal. destruct (forallb _ (prices j)); auto. Qed.

Lemma same_key_true (a b : Row) : same_key a b = true <-> key a = key b.
Proof.
  unfold same_key, key. rewrite andb_true_iff, String.eqb_eq, Z.eqb_eq.
  split; [intros [-> ->]; reflexivity | intros [= -> ->]; auto].
Qed.

Lemma has_key_true (r : Row) (t : Table) :
  has_key r t = true <-> In (key r) (map key t).
Proof.
  unfold has_key. rewrite existsb_exists, in_map_iff. split.
  - intros (x & Hin & Hk). apply same_key_true in Hk. eauto.
  - intros (x & Hk & Hin). exists x. split; [assumption|].
    apply same_key_true. auto.
Qed.

Lemma has_key_false (r : Row) (t : Table) :
  has_key r t = false <-> ~ In (key r) (map key t).
Proof.
  rewrite <- has_key_true. destruct (has_key r t); intuition congruence.
Qed.

Lemma insert_all_app (data : list Row) : forall t t',
  insert_all data t = Some t' -> t' = t ++ data.
Proof.
  induction data as [|r data IH]; simpl; intros t t' H.
  - injection H as <-. now rewrite app_nil_r.
  - destruct (has_key r t); [discriminate|].
    apply IH in H. subst t'. now rewrite <- app_assoc.
Qed.

Lemma insert_all_unique (data : list Row) : forall t t',
  unique_keys t -> insert_all data t = Some t' -> unique_keys t'.
Proof.
  unfold unique_keys.
  induction data as [|r data IH]; simpl; intros t t' Ht H.
  - now injection H as <-.
  - destruct (has_key r t) eqn:Hk; [discriminate|].
    apply (IH (t ++ [r])); [|assumption].
    rewrite map_app. simpl. apply NoDup_app_remove_l with (l := []).
    simpl. apply Permutation_NoDup with (l := key r :: map key t).
    + apply Permutation_cons_append.
    + constructor; [now apply has_key_false | assumption].
Qed.

Lemma insert_all_fresh (data : list Row) : forall t,
  NoDup (map key data) ->
  (forall r, In r data -> ~ In (key r) (map key t)) ->
  insert_all data t = Some (t ++ data).
Proof.
  induction data as [|r data IH]; simpl; intros t Hnd Hfresh.
  - now rewrite app_nil_r.
  - inversion Hnd as [|? ? Hnotin Hnd']; subst.
    assert (Hk : has_key r t = false) by (apply has_key_false, Hfresh; auto).
    rewrite Hk, IH; [now rewrite <- app_assoc | assumption |].
    intros r' Hin. rewrite map_app, in_app_iff. simpl.
    intros [H | [H | []]].
    + now apply (Hfresh r'); auto.
    + apply Hnotin. rewrite H. now apply in_map.
Qed.

Lemma insert_all_clash (data : list Row) : forall t r,
  In r data -> In (key r) (map key t) -> insert_all data t = None.
Proof.
  induction data as [|r0 data IH]; simpl; intros t r Hin Hk; [contradiction|].
  destruct (has_key r0 t) eqn:H0; [reflexivity|].
  destruct Hin as [-> | Hin].
  - apply has_key_false in H0. contradiction.
  - apply (IH _ r); [assumption|]. rewrite map_app, in_app_iff. auto.
Qed.

Lemma max_date_nil (ds : list Date) : max_date ds = None <-> ds = [].
Proof.
  destruct ds as [|d ds]; simpl; [tauto|].
  destruct (max_date ds); split; discriminate.
Qed.

Lemma max_date_spec (ds : list Date) (m : Date) :
  max_date ds = Some m -> In m ds /\ forall d, In d ds -> d <= m.
Proof.
  revert m. induction ds as [|d ds IH]; simpl; intros m H; [discriminate|].
  destruct (max_date ds) as [m'|] eqn:E.
  - injection H as <-. destruct (IH m' eq_refl) as [Hin Hle]. split.
    + destruct (Z.max_spec d m') as [[_ ->] | [_ ->]]; auto.
    + intros x [<- | Hx]; [lia|]. specialize (Hle x Hx). lia.
  - injection H as <-. apply max_date_nil in E. subst ds. split; [auto|].
    intros x [<- | []]. lia.
Qed.

Lemma max_date_unique (ds : list Date) (m : Date) :
  In m ds -> (forall d, In d ds -> d <= m) -> max_date ds = Some m.
Proof.
  intros Hin Hle. destruct (max_date ds) as [m'|] eqn:E.
  - destruct (max_date_spec _ _ E) as [Hin' Hle'].
    f_equal. specialize (Hle _ Hin'). specialize (Hle' _ Hin). lia.
  - apply max_date_nil in E. subst ds. contradiction.
Qed.

Lemma rows_of_app (tok : string) (a b : Table) :
  rows_of tok (a ++ b) = rows_of tok a ++ rows_of tok b.
Proof. apply filter_app. Qed.

Lemma dates_of_app (tok : string) (a b : Table) :
  dates_of tok (a ++ b) = dates_of tok a ++ dates_of tok b.
Proof. unfold dates_of. now rewrite rows_of_app, map_app. Qed.

Lemma rows_of_batch (j : Job) : rows_of (token j) (batch_rows j) = batch_rows j.
Proof.
  unfold rows_of, batch_rows. induction (prices j) as [|p ps IH]; simpl; [reflexivity|].
  unfold of_token at 1. simpl. now rewrite String.eqb_refl, IH.
Qed.

Lemma dates_of_batch (j : Job) :
  dates_of (token j) (batch_rows j) = map (fun p => time_of_epoch (timestamp p)) (prices j).
Proof.
  unfold dates_of. rewrite rows_of_batch. unfold batch_rows.
  rewrite map_map. reflexivity.
Qed.

Lemma rows_of_deleted (tok : string) (t : Table) :
  rows_of tok (fst (deleteMany tok t)) = [].
Proof.
  unfold rows_of. simpl. induction t as [|r t IH]; simpl; [reflexivity|].
  destruct (of_token tok r) eqn:E; simpl; [assumption|]. now rewrite E.
Qed.

Lemma rows_of_other_deleted (tok tok' : string) (t : Table) :
  tok' <> tok -> rows_of tok' (fst (deleteMany tok t)) = rows_of tok' t.
Proof.
  intros Hne. unfold rows_of. simpl. induction t as [|r t IH]; simpl; [reflexivity|].
  destruct (of_token tok r) eqn:E; simpl.
  - unfold of_token in *. apply String.eqb_eq in E.
    destruct (String.eqb_spec (row_token r) tok'); [congruence|assumption].
  - now rewrite IH.
Qed.

Lemma deleteMany_none (tok : string) (t : Table) :
  rows_of tok t = [] -> deleteMany tok t = (t, O).
Proof.
  unfold deleteMany. intros H. rewrite H. simpl. f_equal.
  unfold rows_of in H. induction t as [|r t IH]; simpl in *; [reflexivity|].
  destruct (of_token tok r); [discriminate|]. simpl. now rewrite IH.
Qed.

Lemma aggregate_max_none (tok : string) (t : Table) :
  aggregate_max tok t = None <-> rows_of tok t = [].
Proof.
  unfold aggregate_max, dates_of. rewrite max_date_nil. split.
  - apply map_eq_nil.
  - now intros ->.
Qed.

Lemma deleteMany_unique (tok : string) (t : Table) :
  unique_keys t -> unique_keys (fst (deleteMany tok t)).
Proof.
  unfold unique_keys. simpl. induction t as [|r t IH]; simpl; intros H; [constructor|].
  inversion H as [|? ? Hnotin Hnd]; subst.
  destruct (of_token tok r); simpl; [now apply IH|].
  constructor; [|now apply IH].
  intros Hin. apply Hnotin. apply in_map_iff in Hin. destruct Hin as (x & Hx & Hin).
  apply filter_In in Hin. apply in_map_iff. exists x. tauto.
Qed.

(** ** The [createMany] of step 4 *)

Lemma insert_skip_keeps (data : list Row) : forall t k,
  In k (map key t) -> In k (map key (fst (insert_skip data t))).
Proof.
  induction data as [|r data IH]; simpl; intros t k Hk; [assumption|].
  destruct (has_key r t); [now apply IH|].
  specialize (IH (t ++ [r]) k). destruct (insert_skip data (t ++ [r])) as [t' n].
  apply IH. rewrite map_app, in_app_iff. auto.
Qed.

Lemma insert_skip_covers (data : list Row) : forall t r,
  In r data -> In (key r) (map key (fst (insert_skip data t))).
Proof.
  induction data as [|r0 data IH]; simpl; intros t r Hin; [contradiction|].
  destruct (has_key r0 t) eqn:H0.
  - destruct Hin as [-> | Hin]; [|now apply IH].
    apply insert_skip_keeps. now apply has_key_true.
  - pose proof (IH (t ++ [r0]) r) as IHr.
    pose proof (insert_skip_keeps data (t ++ [r0]) (key r0)) as Hkeep.
    destruct (insert_skip data (t ++ [r0])) as [t' n]. simpl in *.
    destruct Hin as [-> | Hin]; [|now apply IHr].
    apply Hkeep. rewrite map_app, in_app_iff. simpl. auto.
Qed.

Lemma insert_skip_present (data : list Row) (t : Table) :
  (forall r, In r data -> In (key r) (map key t)) -> insert_skip data t = (t, O).
Proof.
  induction data as [|r data IH]; simpl; intros H; [reflexivity|].
  assert (Hk : has_key r t = true) by (apply has_key_true, H; auto).
  rewrite Hk. apply IH. auto.
Qed.

Lemma insert_skip_adds (data : list Row) : forall t,
  exists added,
    insert_skip data t = (t ++ added, length added) /\ incl added data.
Proof.
  induction data as [|r data IH]; intros t; cbn [insert_skip].
  - exists []. split; [now rewrite app_nil_r | apply incl_refl].
  - destruct (has_key r t).
    + destruct (IH t) as (added & E & Hincl). exists added.
      split; [assumption | now apply incl_tl].
    + destruct (IH (t ++ [r])) as (added & E & Hincl). rewrite E.
      exists (r :: added). split.
      * now rewrite <- app_assoc.
      * apply incl_cons; [now left | now apply incl_tl].
Qed.

Lemma insert_skip_unique (data : list Row) : forall t,
  unique_keys t -> unique_keys (fst (insert_skip data t)).
Proof.
  unfold unique_keys.
  induction data as [|r data IH]; intros t Ht; cbn [insert_skip]; [assumption|].
  destruct (has_key r t) eqn:Hk; [now apply IH|].
  specialize (IH (t ++ [r])). destruct (insert_skip data (t ++ [r])) as [t' n].
  apply IH. rewrite map_app. simpl.
  apply Permutation_NoDup with (l := key r :: map key t).
  - apply Permutation_cons_append.
  - constructor; [now apply has_key_false | assumption].
Qed.

Lemma insert_skip_fresh (data : list Row) : forall t,
  NoDup (map key data) ->
  (forall r, In r data -> ~ In (key r) (map key t)) ->
  insert_skip data t = (t ++ data, length data).
Proof.
  induction data as [|r data IH]; simpl; intros t Hnd Hfresh.
  - now rewrite app_nil_r.
  - inversion Hnd as [|? ? Hnotin Hnd']; subst.
    assert (Hk : has_key r t = false) by (apply has_key_false, Hfresh; auto).
    rewrite Hk, IH; [now rewrite <- app_assoc | assumption |].
    intros r' Hin. rewrite map_app, in_app_iff. simpl.
    intros [H | [H | []]].
    + now apply (Hfresh r'); auto.
    + apply Hnotin. rewrite H. now apply in_map.
Qed.

Lemma insert_all_skip (data : list Row) : forall t t',
  insert_all data t = Some t' -> insert_skip data t = (t', length data).
Proof.
  induction data as [|r data IH]; intros t t'; cbn [insert_all insert_skip length].
  - now intros [= <-].
  - destruct (has_key r t); [discriminate|].
    intros H. now rewrite (IH _ _ H).
Qed.

(** After an insert that did not fail, every row of the data has its key in
    the table. *)
Lemma insert_rows_covers (sd : bool) (data : list Row) (t t' : Table) (n : nat) (r : Row) :
  insert_rows sd data t = inr (t', n) -> In r data -> In (key r) (map key t').
Proof.
  unfold insert_rows. destruct sd.
  - intros [= H] Hin. pose proof (insert_skip_covers data t r Hin) as Hc.
    destruct (insert_skip data t) as [t0 n0]. injection H as <- _. exact Hc.
  - destruct (insert_all data t) as [t0|] eqn:E; [|discriminate].
    intros [= <- _] Hin. apply insert_all_app in E. subst t0.
    rewrite map_app, in_app_iff. right. now apply in_map.
Qed.

(** The same insert a second time writes nothing. *)
Lemma insert_rows_again (sd : bool) (data : list Row) (t t' : Table) (n : nat) :
  insert_rows sd data t = inr (t', n) ->
  insert_rows sd data t' = inr (t', O) \/
  insert_rows sd data t' = inl UniqueConstraintViolation.
Proof.
  intros H. destruct sd.
  - left. unfold insert_rows. f_equal. apply insert_skip_present.
    intros r Hr. apply (insert_rows_covers true data t t' n r H Hr).
  - destruct data as [|r data].
    + left. unfold insert_rows in *. simpl in *. congruence.
    + right. unfold insert_rows.
      rewrite (insert_all_clash (r :: data) t' r); [reflexivity | now left |].
      apply (insert_rows_covers false (r :: data) t t' n r H). now left.
Qed.

Lemma insert_rows_fresh (sd : bool) (data : list Row) (t : Table) :
  NoDup (map key data) ->
  (forall r, In r data -> ~ In (key r) (map key t)) ->
  insert_rows sd data t = inr (t ++ data, length data).
Proof.
  intros Hnd Hfresh. unfold insert_rows. destruct sd.
  - now rewrite insert_skip_fresh.
  - now rewrite insert_all_fresh.
Qed.

(** What an insert adds, in either mode: rows of the data after the rows
    that were there, or nothing when it fails. *)
Lemma insert_rows_adds (sd : bool) (data : list Row) (t : Table) :
  (exists added,
     insert_rows sd data t = inr (t ++ added, length added) /\ incl added data) \/
  (sd = false /\ insert_rows sd data t = inl UniqueConstraintViolation).
Proof.
  unfold insert_rows. destruct sd.
  - left. destruct (insert_skip_adds data t) as (added & E & Hincl).
    rewrite E. eauto.
  - destruct (insert_all data t) as [t'|] eqn:E; [left | now right].
    apply insert_all_app in E. subst t'. exists data. split; [reflexivity | apply incl_refl].
Qed.

Lemma insert_rows_unique (sd : bool) (data : list Row) (t : Table) :
  unique_keys t ->
  match insert_rows sd data t with
  | inr (t', _) => unique_keys t'
  | inl _ => True
  end.
Proof.
  intros Hu. unfold insert_rows. destruct sd.
  - pose proof (insert_skip_unique data t Hu) as H.
    destruct (insert_skip data t) as [t' c]. exact H.
  - destruct (insert_all data t) as [t'|] eqn:E; [|exact I].
    apply (insert_all_unique _ _ _ Hu E).
Qed.

(** What the [createMany] of step 4 does to the table, in either mode: it
    adds rows of the batch after the rows that were there and ends the
    body, or it raises and leaves the table as it was. *)
Lemma create_adds (sd : bool) (j : Job) (n : nat) (t : Table) :
  (exists added,
     create sd j n t = (t ++ added, Completed n (length added)) /\
     incl added (batch_rows j) /\ storable j = true) \/
  (exists e,
     create sd j n t = (t, Threw e) /\ e <> TypeError /\
     (e = UniqueConstraintViolation -> sd = false)).
Proof.
  rewrite create_cases. destruct (storable j).
  - unfold create_rows.
    destruct (insert_rows_adds sd (batch_rows j) t) as [(added & E & Hincl) | [Hsd E]];
      rewrite E.
    + left. exists added. auto.
    + right. exists UniqueConstraintViolation. repeat split; [discriminate | auto].
  - right. exists (refusal j). split; [reflexivity|].
    destruct (refusal_kind j) as [-> | ->]; split; discriminate.
Qed.

(** The three ways the [createMany] of step 4 ends. *)
Lemma create_outcomes (sd : bool) (j : Job) (n : nat) (t : Table) :
  (exists added,
     create sd j n t = (t ++ added, Completed n (length added)) /\
     incl added (batch_rows j) /\ storable j = true) \/
  (create sd j n t = (t, Threw UniqueConstraintViolation) /\
   sd = false /\ storable j = true) \/
  (create sd j n t = (t, Threw (refusal j)) /\ storable j = false).
Proof.
  rewrite create_cases. destruct (storable j); [|now right; right].
  unfold create_rows.
  destruct (insert_rows_adds sd (batch_rows j) t) as [(added & E & Hincl) | [Hsd E]];
    rewrite E.
  - left. exists added. auto.
  - right. left. auto.
Qed.

Lemma create_unique (sd : bool) (j : Job) (n : nat) (t : Table) :
  unique_keys t -> unique_keys (fst (create sd j n t)).
Proof.
  intros Hu. rewrite create_cases. destruct (storable j); [|assumption].
  unfold create_rows. pose proof (insert_rows_unique sd (batch_rows j) t Hu) as H.
  destruct (insert_rows sd (batch_rows j) t) as [e|[t' c]]; assumption.
Qed.

Lemma create_completed (sd : bool) (j : Job) (n : nat) (t t' : Table) (d c : nat) :
  create sd j n t = (t', Completed d c) ->
  storable j = true /\ d = n /\ insert_rows sd (batch_rows j) t = inr (t', c).
Proof.
  rewrite create_cases. destruct (storable j); [|discriminate].
  unfold create_rows.
  destruct (insert_rows sd (batch_rows j) t) as [e|[t0 c0]]; [discriminate|].
  intros [= <- <- <-]. auto.
Qed.

Lemma created_rows_covered (sd : bool) (j : Job) (n : nat) (t t' : Table) (d c : nat) (r : Row) :
  create sd j n t = (t', Completed d c) -> In r (batch_rows j) -> In (key r) (map key t').
Proof.
  intros H Hr. apply create_completed in H. destruct H as (_ & _ & E).
  apply (insert_rows_covers _ _ _ _ _ _ E Hr).
Qed.

(** With [skipDuplicates: true] the [createMany] never raises the unique
    constraint violation. *)
Lemma create_true_no_unique (j : Job) (n : nat) (t : Table) :
  snd (create true j n t) <> Threw UniqueConstraintViolation.
Proof.
  destruct (create_adds true j n t) as [(added & E & _) | (e & E & _ & He)];
    rewrite E; cbn [snd]; [discriminate|].
  intros [= ->]. specialize (He eq_refl). discriminate.
Qed.

Lemma create_skip_agrees (j : Job) (n : nat) (t : Table) :
  snd (create false j n t) <> Threw UniqueConstraintViolation ->
  create true j n t = create false j n t.
Proof.
  rewrite !create_cases. destruct (storable j); [|reflexivity].
  unfold create_rows, insert_rows.
  destruct (insert_all (batch_rows j) t) as [t'|] eqn:E; cbn [snd].
  - intros _. now rewrite (insert_all_skip _ _ _ E).
  - congruence.
Qed.

(** A batch that can be stored, of distinct keys none of which is in the
    table, is inserted whole in either mode. *)
Lemma create_fresh (sd : bool) (j : Job) (n : nat) (t : Table) :
  storable j = true ->
  NoDup (map key (batch_rows j)) ->
  (forall r, In r (batch_rows j) -> ~ In (key r) (map key t)) ->
  create sd j n t = (t ++ batch_rows j, Completed n (length (prices j))).
Proof.
  intros Hs Hnd Hfresh. rewrite create_cases, Hs. unfold create_rows.
  rewrite (insert_rows_fresh sd _ t Hnd Hfresh).
  unfold batch_rows. now rewrite length_map.
Qed.

(** The same [createMany] a second time, on the table the first left:
    nothing is written. *)
Lemma create_again (sd : bool) (j : Job) (n : nat) (t t1 : Table) (o1 : Outcome) :
  create sd j n t = (t1, o1) ->
  exists o2, create sd j n t1 = (t1, o2) /\ created_count o2 = O.
Proof.
  rewrite !create_cases. destruct (storable j).
  - unfold create_rows.
    destruct (insert_rows sd (batch_rows j) t) as [e|[t' c]] eqn:E.
    + intros [= <- <-]. rewrite E. eauto.
    + intros [= <- <-].
      destruct (insert_rows_again sd _ _ _ _ E) as [-> | ->]; eauto.
  - intros [= <- <-]. eauto.
Qed.

Lemma commit_no_refresh (sd : bool) (j : Job) (t : Table) :
  forceRefresh j = false -> commit sd j t = create sd j O t.
Proof. intros H. unfold commit. now rewrite H. Qed.

(** ** The step machine and the function agree *)

Lemma run_alone (nn : HelperResult) (sd : bool) (j : Job) (t : Table) :
  run nn sd [O; O; O; O] (t, [Fetching j])
  = (fst (handler nn sd j t), [Done j (snd (handler nn sd j t))]).
Proof.
  unfold handler, commit. simpl.
  destruct (validate nn j (aggregate_max (token j) t)) as [o|[]]; simpl; [reflexivity|].
  destruct (forceRefresh j); simpl.
  - destruct (create sd j _ _) as [t' o]. reflexivity.
  - destruct (create sd j O t) as [t' o]. reflexivity.
Qed.

(** ** Step 3: the check against the latest stored date *)

Lemma validate_some (nn : HelperResult) (j : Job) (d : Date) (p0 : PricePoint) (rest : list PricePoint) :
  prices j = p0 :: rest ->
  validate nn j (Some d)
  = if timestamp p0 =? unixEpoch (addOneDay d) then inr tt else inl Returned.
Proof. intros H. unfold validate. rewrite H. reflexivity. Qed.

Lemma whole_second_next_day (d : Date) (ts : Z) :
  d mod 1000 = 0 ->
  (ts = unixEpoch (addOneDay d) <-> time_of_epoch ts = addOneDay d).
Proof.
  unfold unixEpoch, addOneDay, time_of_epoch, day_ms. intros Hd.
  assert (Hm : (d + 86400000) mod 1000 = 0).
  { rewrite Z.add_mod by lia. rewrite Hd. reflexivity. }
  pose proof (Z.div_mod (d + 86400000) 1000 ltac:(lia)) as Hdm.
  rewrite Hm in Hdm. lia.
Qed.

Lemma accepted_some (nn : HelperResult) (sd : bool) (j : Job) (t : Table)
    (d : Date) (p0 : PricePoint) (rest : list PricePoint) :
  aggregate_max (token j) t = Some d ->
  prices j = p0 :: rest ->
  (accepted nn j t <-> timestamp p0 = unixEpoch (addOneDay d)) /\
  (timestamp p0 <> unixEpoch (addOneDay d) -> handler nn sd j t = (t, Returned)).
Proof.
  intros Hmax Hp. unfold accepted, handler.
  rewrite Hmax, (validate_some nn j d p0 rest Hp).
  destruct (Z.eqb_spec (timestamp p0) (unixEpoch (addOneDay d))); split;
    try tauto; try congruence; split; congruence.
Qed.

(** C5, as the code has it: with a latest stored date [d], the batch passes
    step 3 exactly when the epoch of its first point is that of [d] plus one
    day, to the second.  When it passes, the invocation goes on to step 4
    and does not end by the early [return]; on any other first point, also
    one on the next calendar day at another time, it ends by the early
    [return] and the table is the one it found (nothing deleted, nothing
    inserted), alone or interleaved with others. *)
Theorem watermark_gate (nn : HelperResult) (sd : bool) (j : Job) (t : Table)
    (d : Date) (p0 : PricePoint) (rest : list PricePoint) :
  aggregate_max (token j) t = Some d ->
  prices j = p0 :: rest ->
  (accepted nn j t <-> timestamp p0 = unixEpoch (addOneDay d)) /\
  (d mod 1000 = 0 ->
     (accepted nn j t <-> time_of_epoch (timestamp p0) = addOneDay d)) /\
  (timestamp p0 = unixEpoch (addOneDay d) ->
     handler nn sd j t = commit sd j t /\
     snd (handler nn sd j t) <> Returned /\
     step nn sd (Resolving j) t
     = (t, if forceRefresh j then Deleting j else Creating j O)) /\
  (timestamp p0 <> unixEpoch (addOneDay d) ->
     handler nn sd j t = (t, Returned) /\
     step nn sd (Resolving j) t = (t, Done j Returned)).
Proof.
  intros Hmax Hp.
  assert (Hacc : accepted nn j t <-> timestamp p0 = unixEpoch (addOneDay d)).
  { unfold accepted. rewrite Hmax, (validate_some nn j d p0 rest Hp).
    destruct (Z.eqb_spec (timestamp p0) (unixEpoch (addOneDay d))); split;
      (congruence || reflexivity || discriminate). }
  split; [exact Hacc|]. split; [|split].
  - intros Hd. rewrite Hacc. now apply whole_second_next_day.
  - intros Heq. unfold handler. cbn [step].
    rewrite Hmax, (validate_some nn j d p0 rest Hp).
    destruct (Z.eqb_spec (timestamp p0) (unixEpoch (addOneDay d))); [|contradiction].
    split; [reflexivity|]. split; [|reflexivity].
    unfold commit. destruct (forceRefresh j).
    + destruct (deleteMany (token j) t) as [t1 n].
      destruct (create_adds sd j n t1) as [(added & E & _) | (e0 & E & _)];
        rewrite E; discriminate.
    + destruct (create_adds sd j O t) as [(added & E & _) | (e0 & E & _)];
        rewrite E; discriminate.
  - intros Hne. unfold handler. cbn [step].
    rewrite Hmax, (validate_some nn j d p0 rest Hp).
    destruct (Z.eqb_spec (timestamp p0) (unixEpoch (addOneDay d))); [contradiction|].
    split; reflexivity.
Qed.

(** The spec's gap scenario: the latest stored day is day 0 and the batch
    starts two days later. *)
Lemma watermark_gate_witness :
  let t := [mkRow "0xabc" 0 100] in
  let j := mkJob false "0xabc" 86400000 [mkPoint 172800 7; mkPoint 259200 8] in
  handler YieldsNaN false j t = (t, Returned) /\
  step YieldsNaN false (Resolving j) t = (t, Done j Returned).
Proof.
  apply (watermark_gate YieldsNaN false
           (mkJob false "0xabc" 86400000 [mkPoint 172800 7; mkPoint 259200 8])
           [mkRow "0xabc" 0 100] 0 (mkPoint 172800 7) [mkPoint 259200 8]).
  - reflexivity.
  - reflexivity.
  - vm_compute. discriminate.
Defined.

(** C5, as the spec has it, fails: the spec takes a date to be a calendar
    day, and a first point on the calendar day after the latest stored one,
    one second past the time of day of that one, is turned down. *)
Lemma next_day_other_time_rejected :
  let t := [mkRow "0xabc" 0 100] in
  let j := mkJob false "0xabc" 86400000 [mkPoint 86401 7] in
  aggregate_max "0xabc" t = Some 0 /\
  day_of (time_of_epoch 86401) = day_of 0 + 1 /\
  ~ accepted YieldsNaN j t /\
  handler YieldsNaN false j t = (t, Returned) /\
  handler YieldsNaN true j t = (t, Returned).
Proof.
  cbv zeta. repeat split. intros H. vm_compute in H. discriminate.
Qed.

(** C10: the comparison is on the epoch in seconds: a first point on the
    right calendar day whose time of day is not the one of the latest stored
    date plus one day, be it one second off, is turned down and nothing is
    written. *)
Theorem time_of_day_rejected (nn : HelperResult) (sd : bool) (j : Job) (t : Table)
    (d : Date) (p0 : PricePoint) (rest : list PricePoint) (off : Z) :
  aggregate_max (token j) t = Some d ->
  prices j = p0 :: rest ->
  timestamp p0 = unixEpoch (addOneDay d) + off ->
  off <> 0 ->
  calendar_day (timestamp p0) = calendar_day (unixEpoch (addOneDay d)) ->
  ~ accepted nn j t /\ handler nn sd j t = (t, Returned).
Proof.
  intros Hmax Hp Hoff Hnz _.
  assert (Hne : timestamp p0 <> unixEpoch (addOneDay d)) by lia.
  destruct (accepted_some nn sd j t d p0 rest Hmax Hp) as (Hacc & Hrej).
  split; [rewrite Hacc; exact Hne | apply Hrej, Hne].
Qed.

(** Latest stored date 1970-01-01 00:00:00, first point 1970-01-02 00:00:01. *)
Lemma time_of_day_rejected_witness :
  let t := [mkRow "0xabc" 0 100] in
  let j := mkJob false "0xabc" 86400000 [mkPoint 86401 7] in
  ~ accepted YieldsNaN j t /\ handler YieldsNaN false j t = (t, Returned).
Proof.
  apply (time_of_day_rejected YieldsNaN false
           (mkJob false "0xabc" 86400000 [mkPoint 86401 7])
           [mkRow "0xabc" 0 100] 0 (mkPoint 86401 7) [] 1).
  - reflexivity.
  - reflexivity.
  - reflexivity.
  - lia.
  - reflexivity.
Defined.

(** ** A token without rows *)


Lemma no_rows_fresh (tok : string) (t : Table) (r : Row) :
  rows_of tok t = [] -> row_token r = tok -> ~ In (key r) (map key t).
Proof.
  intros Hnone Htok Hin. apply in_map_iff in Hin. destruct Hin as (x & Hk & Hin).
  assert (Hx : In x (rows_of tok t)).
  { apply filter_In. split; [assumption|]. unfold of_token.
    apply String.eqb_eq. injection Hk as Hk _. congruence. }
  rewrite Hnone in Hx. contradiction.
Qed.

Lemma batch_rows_token (j : Job) (r : Row) : In r (batch_rows j) -> row_token r = token j.
Proof.
  unfold batch_rows. rewrite in_map_iff. intros (p & <- & _). reflexivity.
Qed.

Lemma batch_keys_nodup (j : Job) :
  NoDup (map timestamp (prices j)) -> NoDup (map key (batch_rows j)).
Proof.
  unfold batch_rows. rewrite map_map.
  induction (prices j) as [|p ps IH]; simpl; intros H; [constructor|].
  inversion H as [|? ? Hnotin Hnd]; subst. constructor; [|now apply IH].
  rewrite in_map_iff. intros (q & Hq & Hin). apply Hnotin.
  unfold key, to_row, time_of_epoch in Hq. simpl in Hq. injection Hq as Hq.
  apply in_map_iff. exists q. split; [lia | assumption].
Qed.




(** ** Running the same job again *)

Lemma validate_never_creates (nn : HelperResult) (j : Job) (m : option Date) (o : Outcome) :
  validate nn j m = inl o -> created_count o = O /\ deleted_count o = O.
Proof.
  unfold validate. destruct (prices j) as [|p0 rest]; [intros [= <-]; auto|].
  destruct (expected_epoch nn m) as [e| |]; try (intros [= <-]; auto).
  destruct (timestamp p0 =? e); [discriminate | intros [= <-]; auto].
Qed.

Lemma validate_first (nn : HelperResult) (j : Job) (m : option Date) :
  validate nn j m = inr tt -> exists p0 rest, prices j = p0 :: rest.
Proof.
  unfold validate. destruct (prices j) as [|p0 rest]; [discriminate | eauto].
Qed.

Lemma validate_behind (nn : HelperResult) (j : Job) (m : Date) (p0 : PricePoint)
    (rest : list PricePoint) :
  prices j = p0 :: rest ->
  time_of_epoch (timestamp p0) <= m ->
  validate nn j (Some m) = inl Returned.
Proof.
  intros Hp Hle. rewrite (validate_some nn j m p0 rest Hp).
  destruct (Z.eqb_spec (timestamp p0) (unixEpoch (addOneDay m))) as [E|]; [|reflexivity].
  exfalso. unfold unixEpoch, addOneDay, time_of_epoch, day_ms in *.
  assert (timestamp p0 + 86400 <= (m + 86400000) / 1000).
  { apply Z.div_le_lower_bound; lia. }
  lia.
Qed.

Lemma aggregate_max_bound (tok : string) (t : Table) (r : Row) :
  In (key r) (map key t) -> row_token r = tok ->
  exists m, aggregate_max tok t = Some m /\ row_timestamp r <= m.
Proof.
  intros Hin Htok. apply in_map_iff in Hin. destruct Hin as (x & Hk & Hin).
  injection Hk as Hxt Hxd.
  assert (Hd : In (row_timestamp r) (dates_of tok t)).
  { unfold dates_of. apply in_map_iff. exists x. split; [assumption|].
    apply filter_In. split; [assumption|]. apply String.eqb_eq. congruence. }
  unfold aggregate_max. destruct (max_date (dates_of tok t)) as [m|] eqn:E.
  - exists m. split; [reflexivity|]. now apply (max_date_spec _ _ E).
  - apply max_date_nil in E. rewrite E in Hd. contradiction.
Qed.

(** C7: a job without [forceRefresh] run a second time, right after the
    first, leaves the table as the first run left it and inserts no row;
    the same holds for step 4 alone, run twice. *)
Theorem replay_is_idempotent (nn : HelperResult) (sd : bool) (j : Job) (t : Table) :
  forceRefresh j = false ->
  (let (t1, o1) := handler nn sd j t in
   let (t2, o2) := handler nn sd j t1 in
   t2 = t1 /\ created_count o2 = O /\ deleted_count o2 = O) /\
  (let (t1, o1) := commit sd j t in
   let (t2, o2) := commit sd j t1 in
   t2 = t1 /\ created_count o2 = O /\ deleted_count o2 = O).
Proof.
  intros Hfr.
  assert (Hdel : forall t0, deleted_count (snd (create sd j O t0)) = O).
  { intros t0. destruct (create_adds sd j O t0) as [(added & E & _) | (e & E & _)];
      now rewrite E. }
  split.
  - unfold handler.
    destruct (validate nn j (aggregate_max (token j) t)) as [o|[]] eqn:V.
    + rewrite V. split; [reflexivity|]. apply (validate_never_creates _ _ _ _ V).
    + rewrite (commit_no_refresh sd j t Hfr).
      destruct (create sd j O t) as [t1 o1] eqn:C.
      destruct (create_adds sd j O t) as [(added & E & _) | (e & E & _)];
        rewrite E in C; injection C as <- <-.
      * destruct (validate_first _ _ _ V) as (p0 & rest & Hp).
        assert (Hin : In (to_row (token j) p0) (batch_rows j)).
        { unfold batch_rows. rewrite Hp. now left. }
        pose proof (created_rows_covered _ _ _ _ _ _ _ _ E Hin) as Hk.
        destruct (aggregate_max_bound (token j) _ _ Hk eq_refl) as (m & Hm & Hle).
        rewrite Hm, (validate_behind nn j m p0 rest Hp Hle). auto.
      * rewrite V, (commit_no_refresh sd j t Hfr), E. auto.
  - rewrite (commit_no_refresh sd j t Hfr).
    destruct (create sd j O t) as [t1 o1] eqn:C.
    rewrite (commit_no_refresh sd j t1 Hfr).
    destruct (create_again sd j O t t1 o1 C) as (o2 & E & H).
    specialize (Hdel t1). rewrite E in *. cbn [snd] in Hdel. auto.
Qed.

(** The spec's scenario: the latest stored day is 2023-06-21 and the batch
    is 2023-06-22 to 2023-06-24. *)
Lemma replay_is_idempotent_witness :
  let t := [mkRow "0xabc" 1687305600000 100] in
  let j := mkJob false "0xabc" 1687392000000
             [mkPoint 1687392000 7; mkPoint 1687478400 8; mkPoint 1687564800 9] in
  (let (t1, o1) := handler YieldsNaN false j t in
   let (t2, o2) := handler YieldsNaN false j t1 in
   t2 = t1 /\ created_count o2 = O /\ deleted_count o2 = O) /\
  (let (t1, o1) := commit false j t in
   let (t2, o2) := commit false j t1 in
   t2 = t1 /\ created_count o2 = O /\ deleted_count o2 = O).
Proof.
  apply (replay_is_idempotent YieldsNaN false
           (mkJob false "0xabc" 1687392000000
              [mkPoint 1687392000 7; mkPoint 1687478400 8; mkPoint 1687564800 9])
           [mkRow "0xabc" 1687305600000 100]).
  reflexivity.
Defined.

(** The first run of that scenario inserts three rows and deletes none; the
    second is turned down at step 3. *)
Example replay_scenario :
  let t := [mkRow "0xabc" 1687305600000 100] in
  let j := mkJob false "0xabc" 1687392000000
             [mkPoint 1687392000 7; mkPoint 1687478400 8; mkPoint 1687564800 9] in
  snd (handler YieldsNaN false j t) = Completed 0 3 /\
  snd (handler YieldsNaN false j (fst (handler YieldsNaN false j t))) = Returned.
Proof. split; reflexivity. Qed.

(** ** [forceRefresh]: the deletes, then the creates *)


Lemma rows_of_other_batch (tok : string) (j : Job) :
  tok <> token j -> rows_of tok (batch_rows j) = [].
Proof.
  intros Hne. unfold rows_of, batch_rows.
  induction (prices j) as [|p ps IH]; simpl; [reflexivity|].
  unfold of_token at 1. simpl.
  destruct (String.eqb_spec (token j) tok); [congruence | assumption].
Qed.

Lemma rows_of_other_added (tok : string) (j : Job) (added : list Row) :
  token j <> tok -> incl added (batch_rows j) -> rows_of tok added = [].
Proof.
  intros Hne Hincl. unfold rows_of.
  induction added as [|r added IH]; [reflexivity|]. cbn [filter].
  assert (Hr : row_token r = token j) by (apply batch_rows_token, Hincl; now left).
  unfold of_token at 1. rewrite Hr.
  destruct (String.eqb_spec (token j) tok); [contradiction|].
  apply IH. intros x Hx. apply Hincl. now right.
Qed.

Lemma next_day_after (d : Date) : d < time_of_epoch (unixEpoch (addOneDay d)).
Proof.
  unfold time_of_epoch, unixEpoch, addOneDay, day_ms.
  pose proof (Z.div_mod (d + 86400000) 1000 ltac:(lia)).
  pose proof (Z.mod_pos_bound (d + 86400000) 1000 ltac:(lia)). lia.
Qed.




(** A refresh that runs alone, with a batch that can be stored and has
    distinct timestamps: the rows of the token are replaced by the batch. *)
Lemma refresh_alone (nn : HelperResult) (sd : bool) (j : Job) (t : Table) :
  forceRefresh j = true ->
  accepted nn j t ->
  storable j = true ->
  NoDup (map timestamp (prices j)) ->
  handler nn sd j t
  = (fst (deleteMany (token j) t) ++ batch_rows j,
     Completed (length (rows_of (token j) t)) (length (prices j))).
Proof.
  intros Hfr Hacc Hs Hnd. unfold handler. rewrite Hacc. unfold commit. rewrite Hfr.
  destruct (deleteMany (token j) t) as [t1 n] eqn:D.
  assert (Ht1 : t1 = fst (deleteMany (token j) t)) by now rewrite D.
  assert (Hn : n = length (rows_of (token j) t)) by (unfold deleteMany in D; congruence).
  subst n. cbn [fst]. apply create_fresh; [assumption | now apply batch_keys_nodup |].
  intros r Hr. apply (no_rows_fresh (token j)); [|now apply batch_rows_token].
  rewrite Ht1. apply rows_of_deleted.
Qed.

(** A refresh that runs alone, with a batch that cannot be stored: the rows
    of the token are deleted and the [createMany] is refused. *)
Lemma refresh_refused (nn : HelperResult) (sd : bool) (j : Job) (t : Table) :
  forceRefresh j = true ->
  accepted nn j t ->
  storable j = false ->
  handler nn sd j t = (fst (deleteMany (token j) t), Threw (refusal j)).
Proof.
  intros Hfr Hacc Hs. unfold handler. rewrite Hacc. unfold commit. rewrite Hfr.
  destruct (deleteMany (token j) t) as [t1 n]. now rewrite create_cases, Hs.
Qed.




(** C2, as the code has it: the commit of a refresh is two writes, each on
    its own, in either listing.  After the first, every row of the token is
    gone and the other tokens are as they were.  The second only ever adds
    rows of the batch after the rows it finds: it never brings a deleted row
    back.  A refresh that runs alone with a batch that can be stored, of
    distinct timestamps, replaces the rows of the token by the batch; with a
    batch that cannot be stored (an invalid date, a token that does not fit)
    it leaves the rows of the token deleted and nothing inserted. *)
Theorem refresh_is_two_writes (nn : HelperResult) (j : Job) (t : Table) :
  forceRefresh j = true ->
  accepted nn j t ->
  (forall sd, step nn sd (Resolving j) t = (t, Deleting j)) /\
  (forall sd,
     snd (step nn sd (Deleting j) t) = Creating j (length (rows_of (token j) t)) /\
     rows_of (token j) (fst (step nn sd (Deleting j) t)) = [] /\
     forall tok, tok <> token j ->
       rows_of tok (fst (step nn sd (Deleting j) t)) = rows_of tok t) /\
  (forall sd t1 n,
     exists added,
       fst (step nn sd (Creating j n) t1) = t1 ++ added /\
       incl added (batch_rows j)) /\
  (storable j = true -> NoDup (map timestamp (prices j)) ->
   forall sd,
     handler nn sd j t
     = (fst (deleteMany (token j) t) ++ batch_rows j,
        Completed (length (rows_of (token j) t)) (length (prices j)))) /\
  (storable j = false ->
   forall sd,
     handler nn sd j t = (fst (deleteMany (token j) t), Threw (refusal j))).
Proof.
  intros Hfr Hacc. split; [|split; [|split; [|split]]].
  - intros sd. cbn [step]. rewrite Hacc, Hfr. reflexivity.
  - intros sd. cbn [step]. split; [reflexivity|]. split.
    + apply (rows_of_deleted (token j) t).
    + intros tok Hne. now apply (rows_of_other_deleted (token j) tok t).
  - intros sd t1 n. cbn [step].
    destruct (create_adds sd j n t1) as [(added & E & Hincl & _) | (e & E & _)];
      rewrite E; cbn [fst].
    + now exists added.
    + exists []. split; [now rewrite app_nil_r | intros r []].
  - intros Hs Hnd sd. now apply refresh_alone.
  - intros Hs sd. now apply refresh_refused.
Qed.

Lemma refresh_is_two_writes_witness :
  let t := [mkRow "0xabc" 0 100; mkRow "0xdef" 0 3] in
  let j := mkJob true "0xabc" 86400000 [mkPoint 86400 5; mkPoint 172800 6] in
  handler YieldsNaN false j t
  = (fst (deleteMany (token j) t) ++ batch_rows j,
     Completed (length (rows_of (token j) t)) (length (prices j))).
Proof.
  destruct (refresh_is_two_writes YieldsNaN
              (mkJob true "0xabc" 86400000 [mkPoint 86400 5; mkPoint 172800 6])
              [mkRow "0xabc" 0 100; mkRow "0xdef" 0 3] eq_refl eq_refl)
    as (_ & _ & _ & H & _).
  apply (H eq_refl).
  simpl. repeat constructor; simpl; intuition discriminate.
Defined.

(** C2, as the spec has it, fails.  A refresh stopped between its two writes
    has deleted the rows of the token and inserted nothing.  And a refresh
    that runs alone to its end, with a batch whose second date is invalid,
    passes step 3, deletes the rows of the token and is refused by
    [createMany], in either listing: the old row is gone and no row of the
    batch is in. *)
Lemma refresh_not_atomic :
  let old := mkRow "0xabc" 0 100 in
  let a := mkJob true "0xabc" 86400000 [mkPoint 86400 5; mkPoint 172800 6] in
  let k := mkJob true "0xabc" 86400000 [mkPoint 86400 5; mkPoint 10000000000000 6] in
  accepted YieldsNaN a [old] /\
  run YieldsNaN false [0; 0; 0]%nat ([old], [Fetching a])
    = ([], [Creating a 1]) /\
  accepted YieldsNaN k [old] /\
  run YieldsNaN false [0; 0; 0; 0]%nat ([old], [Fetching k])
    = ([], [Done k (Threw InvalidDate)]) /\
  run YieldsNaN true [0; 0; 0; 0]%nat ([old], [Fetching k])
    = ([], [Done k (Threw InvalidDate)]).
Proof. repeat split. Qed.

(** ** The missing [skipDuplicates] *)

(** C1: two invocations for the same token with the same batch, both past
    step 3 before either writes: the second [createMany] of the handler
    raises the unique constraint violation.  With [skipDuplicates: true], as
    in the first listing of the scenario, the same schedule ends with the
    second invocation creating no row, and no [createMany] ever raises the
    unique constraint violation. *)
Theorem duplicate_insert_throws :
  let old := mkRow "0xabc" 0 100 in
  let j := mkJob false "0xabc" 86400000 [mkPoint 86400 7] in
  run YieldsNaN false [0; 1; 0; 1; 0; 1]%nat ([old], [Fetching j; Fetching j])
    = ([old; mkRow "0xabc" 86400000 7],
       [Done j (Completed 0 1); Done j (Threw UniqueConstraintViolation)]) /\
  run YieldsNaN true [0; 1; 0; 1; 0; 1]%nat ([old], [Fetching j; Fetching j])
    = ([old; mkRow "0xabc" 86400000 7],
       [Done j (Completed 0 1); Done j (Completed 0 0)]) /\
  (forall j' n t, snd (create true j' n t) <> Threw UniqueConstraintViolation).
Proof.
  split; [reflexivity|]. split; [reflexivity|].
  exact create_true_no_unique.
Qed.

(** ** Contiguity *)

Lemma in_day_run (n : nat) : forall s x,
  In x (day_run s n) <-> s <= x < s + Z.of_nat n.
Proof.
  induction n as [|n IH]; intros s x.
  - simpl. lia.
  - cbn [day_run In]. rewrite IH. lia.
Qed.

Lemma day_run_app (n m : nat) : forall s,
  day_run s (n + m) = day_run s n ++ day_run (s + Z.of_nat n) m.
Proof.
  induction n as [|n IH]; intros s.
  - simpl. now rewrite Z.add_0_r.
  - cbn [day_run Nat.add app]. rewrite IH. do 3 f_equal. lia.
Qed.

Lemma length_day_run (n : nat) : forall s, length (day_run s n) = n.
Proof. induction n as [|n IH]; intros s; simpl; [reflexivity | now rewrite IH]. Qed.

Lemma day_of_mono (a b : Date) : a <= b -> day_of a <= day_of b.
Proof. intros H. unfold day_of, day_ms. apply Z.div_le_mono; lia. Qed.

Lemma day_of_next (d : Date) : unixEpoch (addOneDay d) / day_s = day_of d + 1.
Proof.
  unfold unixEpoch, addOneDay, day_of, day_s, day_ms.
  rewrite Z.div_div by lia. change (1000 * 86400) with 86400000.
  change (d + 86400000) with (d + 1 * 86400000). now rewrite Z.div_add by lia.
Qed.

Lemma day_of_epoch (ts : Z) : day_of (time_of_epoch ts) = ts / day_s.
Proof.
  unfold day_of, time_of_epoch, day_ms, day_s.
  change 86400000 with (86400 * 1000). apply Z.div_mul_cancel_r; lia.
Qed.

Lemma daily_days (ps : list PricePoint) : forall start,
  daily_from start ps ->
  map day_of (map (fun p => time_of_epoch (timestamp p)) ps)
  = day_run (start / day_s) (length ps).
Proof.
  induction ps as [|p ps IH]; intros start H; [reflexivity|].
  destruct H as [Hp Hrest]. cbn [map length day_run].
  rewrite day_of_epoch, Hp. f_equal.
  rewrite (IH _ Hrest). f_equal. unfold day_s.
  change (start + 86400) with (start + 1 * 86400). now rewrite Z.div_add by lia.
Qed.

Lemma contiguous_nil : contiguous [].
Proof. exists 0, O. constructor. Qed.

Lemma contiguous_max (ds : list Date) (s : Z) (n : nat) (d : Date) :
  Permutation (map day_of ds) (day_run s n) ->
  max_date ds = Some d ->
  day_of d = s + Z.of_nat n - 1.
Proof.
  intros HP Hmax. destruct (max_date_spec _ _ Hmax) as [Hin Hle].
  assert (Hd : In (day_of d) (day_run s n)).
  { apply (Permutation_in _ HP). now apply in_map. }
  apply in_day_run in Hd.
  assert (Hlast : In (s + Z.of_nat n - 1) (map day_of ds)).
  { apply (Permutation_in _ (Permutation_sym HP)). apply in_day_run. lia. }
  apply in_map_iff in Hlast. destruct Hlast as (d' & Hd' & Hin').
  pose proof (day_of_mono _ _ (Hle _ Hin')). lia.
Qed.

Lemma contiguous_append (ds ds' : list Date) (d : Date) :
  contiguous ds ->
  max_date ds = Some d ->
  map day_of ds' = day_run (day_of d + 1) (length ds') ->
  contiguous (ds ++ ds').
Proof.
  intros (s & n & HP) Hmax Hrun.
  exists s, (n + length ds')%nat.
  rewrite map_app, day_run_app, Hrun.
  rewrite (contiguous_max ds s n d HP Hmax).
  replace (s + Z.of_nat n - 1 + 1) with (s + Z.of_nat n) by lia.
  now apply Permutation_app_tail.
Qed.

Lemma contiguous_run (ds : list Date) (s : Z) :
  map day_of ds = day_run s (length ds) -> contiguous ds.
Proof. intros H. exists s, (length ds). now rewrite H. Qed.

Lemma later_rows_fresh (tok : string) (t : Table) (d : Date) (r : Row) :
  aggregate_max tok t = Some d ->
  row_token r = tok -> d < row_timestamp r ->
  ~ In (key r) (map key t).
Proof.
  intros Hmax Htok Hlt Hin.
  destruct (aggregate_max_bound tok t r Hin Htok) as (m & Hm & Hle).
  rewrite Hmax in Hm. injection Hm as <-. lia.
Qed.

Lemma nodup_day_run (n : nat) : forall s, NoDup (day_run s n).
Proof.
  induction n as [|n IH]; intros s; cbn [day_run]; constructor; [|apply IH].
  rewrite in_day_run. lia.
Qed.

Lemma batch_days (j : Job) :
  map day_of (dates_of (token j) (batch_rows j))
  = map (fun p => calendar_day (timestamp p)) (prices j).
Proof.
  rewrite dates_of_batch, map_map. apply map_ext. intros p. apply day_of_epoch.
Qed.

Lemma daily_consecutive (ps : list PricePoint) : daily_batch ps -> consecutive_days ps.
Proof.
  intros [start Hd]. exists (start / day_s).
  rewrite <- (daily_days ps start Hd), map_map. apply map_ext.
  intros p. symmetry. apply day_of_epoch.
Qed.

Lemma consecutive_nodup (ps : list PricePoint) :
  consecutive_days ps -> NoDup (map timestamp ps).
Proof.
  intros [start H]. apply (NoDup_map_inv calendar_day).
  rewrite map_map, H. apply nodup_day_run.
Qed.

(** An accepted batch of consecutive days has no key in the table it was
    checked against. *)
Lemma accepted_days_fresh (nn : HelperResult) (j : Job) (t : Table) :
  accepted nn j t -> consecutive_days (prices j) ->
  forall r, In r (batch_rows j) -> ~ In (key r) (map key t).
Proof.
  intros Hacc [start Hd] r Hr.
  destruct (aggregate_max (token j) t) as [d|] eqn:Hmax.
  - destruct (validate_first _ _ _ Hacc) as (p0 & rest & Hp).
    destruct (accepted_some nn false j t d p0 rest Hmax Hp) as (Hgate & _).
    apply Hgate in Hacc.
    apply (later_rows_fresh (token j) t d); [assumption | now apply batch_rows_token |].
    unfold batch_rows in Hr. apply in_map_iff in Hr. destruct Hr as (p & <- & Hin).
    cbn [to_row row_timestamp].
    assert (Hstart : start = day_of d + 1).
    { rewrite Hp in Hd. cbn [map length day_run] in Hd. injection Hd as Hs _.
      rewrite <- Hs. unfold calendar_day. rewrite Hacc. apply day_of_next. }
    assert (Hday : start <= calendar_day (timestamp p)).
    { assert (Hin' : In (calendar_day (timestamp p)) (day_run start (length (prices j)))).
      { rewrite <- Hd. apply (in_map (fun q => calendar_day (timestamp q))), Hin. }
      apply in_day_run in Hin'. lia. }
    destruct (Z_lt_le_dec d (time_of_epoch (timestamp p))) as [|Hle]; [assumption|].
    apply day_of_mono in Hle. rewrite day_of_epoch in Hle.
    unfold calendar_day in Hday. lia.
  - apply (no_rows_fresh (token j)); [now apply aggregate_max_none|].
    now apply batch_rows_token.
Qed.

(** One invocation that runs alone, in either listing, keeps the unique
    index and the run of days of every token, when its batch has one point
    per calendar day on consecutive days. *)
Lemma handler_keeps_contiguous (nn : HelperResult) (sd : bool) (j : Job) (t : Table)
    (tok : string) :
  consecutive_days (prices j) ->
  unique_keys t -> contiguous (dates_of tok t) ->
  unique_keys (fst (handler nn sd j t)) /\
  contiguous (dates_of tok (fst (handler nn sd j t))).
Proof.
  intros Hdays Huniq Hcont. unfold handler.
  destruct (validate nn j (aggregate_max (token j) t)) as [o|[]] eqn:V; [now split|].
  split.
  { unfold commit. destruct (forceRefresh j).
    - pose proof (deleteMany_unique (token j) t Huniq) as Hu1.
      destruct (deleteMany (token j) t) as [t1 n]. now apply create_unique.
    - now apply create_unique. }
  assert (Hnd : NoDup (map key (batch_rows j))).
  { apply batch_keys_nodup. now apply consecutive_nodup. }
  destruct Hdays as [start Hd].
  assert (Hrun : map day_of (dates_of (token j) (batch_rows j))
                 = day_run start (length (dates_of (token j) (batch_rows j)))).
  { rewrite batch_days, Hd. f_equal.
    rewrite dates_of_batch, length_map. reflexivity. }
  assert (Happ : forall t0, (token j <> tok -> contiguous (dates_of tok t0)) ->
            (token j = tok ->
               dates_of tok t0 = [] \/
               (contiguous (dates_of tok t0) /\
                exists d, max_date (dates_of tok t0) = Some d /\ start = day_of d + 1)) ->
            contiguous (dates_of tok (t0 ++ batch_rows j))).
  { intros t0 Hother Hsame. rewrite dates_of_app.
    destruct (string_dec (token j) tok) as [E | Hne].
    - subst tok. destruct (Hsame eq_refl) as [Hnil | (Hc & d & Hm & Hs)].
      + rewrite Hnil. cbn [app]. now apply (contiguous_run _ start).
      + apply (contiguous_append _ _ d Hc Hm). now rewrite Hrun, Hs.
    - unfold dates_of at 2. rewrite rows_of_other_batch by congruence.
      cbn [map]. rewrite app_nil_r. now apply Hother. }
  unfold commit. destruct (forceRefresh j).
  - destruct (deleteMany (token j) t) as [t1 n] eqn:D.
    assert (Ht1 : t1 = fst (deleteMany (token j) t)) by now rewrite D.
    assert (Hnone : rows_of (token j) t1 = []) by (rewrite Ht1; apply rows_of_deleted).
    assert (Hc1 : contiguous (dates_of tok t1)).
    { destruct (string_dec (token j) tok) as [E | Hne].
      - subst tok. unfold dates_of. rewrite Hnone. apply contiguous_nil.
      - unfold dates_of. rewrite Ht1, rows_of_other_deleted by congruence. exact Hcont. }
    destruct (storable j) eqn:Hs; [|rewrite create_cases, Hs; exact Hc1].
    rewrite (create_fresh sd j n t1 Hs Hnd).
    + cbn [fst]. apply Happ; [intros _; exact Hc1|].
      intros E. left. subst tok. unfold dates_of. now rewrite Hnone.
    + intros r Hr. apply (no_rows_fresh (token j)); [assumption|].
      now apply batch_rows_token.
  - destruct (storable j) eqn:Hs; [|rewrite create_cases, Hs; exact Hcont].
    rewrite (create_fresh sd j O t Hs Hnd).
    + cbn [fst]. apply Happ; [intros _; exact Hcont|].
      intros E. subst tok. unfold aggregate_max in V.
      destruct (max_date (dates_of (token j) t)) as [d|] eqn:M.
      * right. split; [assumption|]. exists d. split; [reflexivity|].
        destruct (validate_first _ _ _ V) as (p0 & rest & Hp).
        rewrite (validate_some nn j d p0 rest Hp) in V.
        destruct (Z.eqb_spec (timestamp p0) (unixEpoch (addOneDay d))) as [E|];
          [|discriminate].
        rewrite Hp in Hd. cbn [map length day_run] in Hd. injection Hd as Hs0 _.
        rewrite <- Hs0. unfold calendar_day. rewrite E. apply day_of_next.
      * left. now apply max_date_nil.
    + now apply (accepted_days_fresh nn j t V); exists start.
Qed.

(** C3, as the code has it: from a table that keeps the unique index and
    whose dates for a token are a run of calendar days (or none), any
    sequence of invocations run one after the other, in either listing, each
    with a batch of one point per calendar day on consecutive days, leaves a
    table that keeps the unique index and whose dates for that token are
    again a run of calendar days without a gap. *)
Theorem sequential_commits_stay_contiguous (nn : HelperResult) (sd : bool)
    (js : list Job) (t : Table) (tok : string) :
  Forall (fun j => consecutive_days (prices j)) js ->
  unique_keys t ->
  contiguous (dates_of tok t) ->
  let t' := fst (run_sequential nn sd js t) in
  unique_keys t' /\ contiguous (dates_of tok t').
Proof.
  intros Hjs. revert t.
  induction Hjs as [|j js Hj Hjs IH]; intros t Hu Hc; [now split|].
  cbn [run_sequential].
  destruct (handler_keeps_contiguous nn sd j t tok Hj Hu Hc) as [Hu1 Hc1].
  destruct (handler nn sd j t) as [t1 o]. cbn [fst] in *.
  specialize (IH t1 Hu1 Hc1). cbv zeta in IH.
  destruct (run_sequential nn sd js t1) as [t2 os]. exact IH.
Qed.

(** A stored day, an append of the two days that follow at other times of
    day, then a refresh with the day after. *)
Lemma sequential_commits_stay_contiguous_witness :
  let t := [mkRow "0xabc" 0 100] in
  let js := [mkJob false "0xabc" 86400000 [mkPoint 86400 7; mkPoint 176400 8];
             mkJob true "0xabc" 259200000 [mkPoint 262800 9]] in
  let t' := fst (run_sequential YieldsNaN false js t) in
  unique_keys t' /\ contiguous (dates_of "0xabc" t').
Proof.
  apply (sequential_commits_stay_contiguous YieldsNaN false
           [mkJob false "0xabc" 86400000 [mkPoint 86400 7; mkPoint 176400 8];
            mkJob true "0xabc" 259200000 [mkPoint 262800 9]]
           [mkRow "0xabc" 0 100] "0xabc").
  - constructor; [exists 1; reflexivity|].
    constructor; [exists 3; reflexivity | constructor].
  - unfold unique_keys. simpl. constructor; [simpl; tauto | constructor].
  - exists 0, 1%nat. apply Permutation_refl.
Defined.

(** C3, as the spec has it, fails: step 3 looks at the first point only and
    the whole batch is inserted, so a batch with a missing day is committed
    and leaves a gap. *)
Lemma gap_in_batch_breaks_contiguity :
  let t := [mkRow "0xabc" 0 100] in
  let j := mkJob false "0xabc" 86400000 [mkPoint 86400 7; mkPoint 259200 8] in
  unique_keys t /\
  contiguous (dates_of "0xabc" t) /\
  handler YieldsNaN false j t = (t ++ batch_rows j, Completed 0 2) /\
  ~ contiguous (dates_of "0xabc" (fst (handler YieldsNaN false j t))).
Proof.
  cbv zeta. split; [|split; [|split]].
  - unfold unique_keys. simpl. constructor; [simpl; tauto | constructor].
  - exists 0, 1%nat. apply Permutation_refl.
  - reflexivity.
  - intros (s & n & HP).
    change (Permutation [0; 1; 3] (day_run s n)) in HP.
    pose proof (Permutation_length HP) as Hlen.
    rewrite length_day_run in Hlen. simpl in Hlen. subst n.
    assert (H0 : In 0 (day_run s 3)) by (apply (Permutation_in _ HP); simpl; auto).
    assert (H3 : In 3 (day_run s 3)) by (apply (Permutation_in _ HP); simpl; auto).
    apply in_day_run in H0. apply in_day_run in H3. lia.
Qed.

(** ** The commit of the code and the commit of the spec *)

Lemma daily_from_bounds (ps : list PricePoint) : forall start,
  daily_from start ps ->
  NoDup (map timestamp ps) /\ forall p, In p ps -> start <= timestamp p.
Proof.
  induction ps as [|p ps IH]; intros start H; [split; [constructor | contradiction]|].
  destruct H as [Hp Hrest]. destruct (IH _ Hrest) as [Hnd Hlow]. split.
  - cbn [map]. constructor; [|assumption].
    rewrite in_map_iff. intros (q & Hq & Hin). specialize (Hlow q Hin).
    unfold day_s in Hlow. lia.
  - intros q [<- | Hin]; [lia|]. specialize (Hlow q Hin). unfold day_s in Hlow. lia.
Qed.



(** An accepted daily batch has no key in the table it was checked against. *)
Lemma accepted_batch_fresh (nn : HelperResult) (j : Job) (t : Table) :
  accepted nn j t -> daily_batch (prices j) ->
  forall r, In r (batch_rows j) -> ~ In (key r) (map key t).
Proof.
  intros Hacc Hd. apply (accepted_days_fresh nn j t Hacc). now apply daily_consecutive.
Qed.




(** ** Interleaved invocations *)

Lemma step_nth_spec (nn : HelperResult) (sd : bool) (ps : list Proc) : forall i t,
  step_nth nn sd i ps t = (t, ps) \/
  exists l1 p l2, ps = l1 ++ p :: l2 /\
    step_nth nn sd i ps t = (fst (step nn sd p t), l1 ++ snd (step nn sd p t) :: l2).
Proof.
  induction ps as [|p ps IH]; intros i t; [destruct i; now left|].
  destruct i as [|i]; cbn [step_nth].
  - right. exists [], p, ps. split; [reflexivity|].
    destruct (step nn sd p t) as [t' p']. reflexivity.
  - destruct (IH i t) as [E | (l1 & q & l2 & Hps & E)]; rewrite E.
    + now left.
    + right. exists (p :: l1), q, l2. split; [now rewrite Hps | reflexivity].
Qed.

Lemma run_sequential_snoc (nn : HelperResult) (sd : bool) (js : list Job) (j : Job) :
  forall t, fst (run_sequential nn sd (js ++ [j]) t)
            = fst (handler nn sd j (fst (run_sequential nn sd js t))).
Proof.
  induction js as [|j0 js IH]; intros t; simpl.
  - destruct (handler nn sd j t) as [t1 o]. reflexivity.
  - destruct (handler nn sd j0 t) as [t1 o]. specialize (IH t1).
    destruct (run_sequential nn sd (js ++ [j]) t1) as [t2 os].
    destruct (run_sequential nn sd js t1) as [t3 os']. exact IH.
Qed.

Lemma done_jobs_same (l1 l2 : list Proc) (p p' : Proc) :
  is_done p = false -> is_done p' = false ->
  done_jobs (l1 ++ p' :: l2) = done_jobs (l1 ++ p :: l2).
Proof.
  intros H H'. unfold done_jobs. rewrite !filter_app. cbn [filter].
  now rewrite H, H'.
Qed.

Lemma done_jobs_more (l1 l2 : list Proc) (p : Proc) (j : Job) (o : Outcome) (order : list Job) :
  is_done p = false ->
  Permutation order (done_jobs (l1 ++ p :: l2)) ->
  Permutation (order ++ [j]) (done_jobs (l1 ++ Done j o :: l2)).
Proof.
  unfold done_jobs. rewrite !filter_app. cbn [filter is_done]. intros -> HP.
  rewrite !map_app in *. cbn [map job_of].
  apply Permutation_trans with (l' := j :: order).
  - apply Permutation_sym, Permutation_cons_append.
  - now apply Permutation_cons_app.
Qed.

Lemma first_taken_clash (j : Job) (t : Table) :
  first_taken j t -> insert_all (batch_rows j) t = None.
Proof.
  unfold first_taken, batch_rows. destruct (prices j) as [|p0 rest]; [contradiction|].
  intros H. apply (insert_all_clash _ t (to_row (token j) p0)); [now left | assumption].
Qed.

Lemma first_taken_grows (j : Job) (t extra : Table) :
  first_taken j t -> first_taken j (t ++ extra).
Proof.
  unfold first_taken. destruct (prices j) as [|p0 rest]; [contradiction|].
  rewrite map_app, in_app_iff. auto.
Qed.

Lemma accepted_first (nn : HelperResult) (j : Job) (t : Table) :
  accepted nn j t ->
  exists p0 rest e, prices j = p0 :: rest /\ timestamp p0 = e /\
    expected_epoch nn (aggregate_max (token j) t) = Yields e.
Proof.
  unfold accepted, validate. destruct (prices j) as [|p0 rest]; [discriminate|].
  destruct (expected_epoch nn (aggregate_max (token j) t)) as [e| |]; try discriminate.
  destruct (Z.eqb_spec (timestamp p0) e); [|discriminate]. eauto 6.
Qed.

Lemma aggregate_max_other_batch (tok : string) (j : Job) (t : Table) :
  tok <> token j -> aggregate_max tok (t ++ batch_rows j) = aggregate_max tok t.
Proof.
  intros Hne. unfold aggregate_max. rewrite dates_of_app.
  unfold dates_of at 2. rewrite rows_of_other_batch by assumption.
  simpl. now rewrite app_nil_r.
Qed.

(** An append that was still acceptable when it wrote leaves every other
    pending append either acceptable or with its first row taken. *)
Lemma pending_after_append (nn : HelperResult) (j j' : Job) (t : Table) :
  accepted nn j t ->
  accepted nn j' t \/ first_taken j' t ->
  accepted nn j' (t ++ batch_rows j) \/ first_taken j' (t ++ batch_rows j).
Proof.
  intros Hj [Hj' | Htaken]; [|right; now apply first_taken_grows].
  destruct (string_dec (token j') (token j)) as [Etok | Hne].
  - right.
    destruct (accepted_first nn j t Hj) as (p0 & rest & e & Hp & He & Hexp).
    destruct (accepted_first nn j' t Hj') as (p0' & rest' & e' & Hp' & He' & Hexp').
    rewrite Etok, Hexp in Hexp'. injection Hexp' as <-.
    unfold first_taken. rewrite Hp'. rewrite map_app, in_app_iff. right.
    unfold batch_rows. rewrite Hp. cbn [map]. left.
    unfold key, to_row. simpl. now rewrite Etok, He, He'.
  - left. unfold accepted. now rewrite aggregate_max_other_batch.
Qed.

Lemma create_count_free (sd : bool) (j : Job) (n m : nat) (t : Table) :
  fst (create sd j n t) = fst (create sd j m t).
Proof.
  rewrite !create_cases. destruct (storable j); [|reflexivity].
  unfold create_rows. now destruct (insert_rows sd (batch_rows j) t) as [e|[t' c]].
Qed.

(** An append that runs alone leaves the table its [createMany] leaves, or
    the table as it was. *)
Lemma handler_append_table (nn : HelperResult) (sd : bool) (j : Job) (n : nat) (t : Table) :
  forceRefresh j = false ->
  fst (handler nn sd j t) = t \/
  accepted nn j t /\ fst (handler nn sd j t) = fst (create sd j n t).
Proof.
  intros Hfr. unfold handler, accepted.
  destruct (validate nn j (aggregate_max (token j) t)) as [o|[]]; [now left|].
  right. split; [reflexivity|].
  rewrite (commit_no_refresh sd j t Hfr). apply create_count_free.
Qed.

Lemma handler_when_clash (nn : HelperResult) (j : Job) (n : nat) (t : Table) :
  forceRefresh j = false ->
  fst (create false j n t) = t ->
  fst (handler nn false j t) = t.
Proof.
  intros Hfr E. destruct (handler_append_table nn false j n t Hfr) as [H | [_ H]]; congruence.
Qed.

Lemma handler_when_accepted (nn : HelperResult) (j : Job) (n : nat) (t : Table) :
  forceRefresh j = false ->
  accepted nn j t ->
  fst (handler nn false j t) = fst (create false j n t).
Proof.
  intros Hfr Hacc. unfold handler. rewrite Hacc.
  rewrite (commit_no_refresh false j t Hfr). apply create_count_free.
Qed.

(** One step of the pool keeps: the invocations that have ended, run one
    after the other in the order they ended, give the table as it is. *)
Lemma step_nth_serial (nn : HelperResult) (t0 : Table) (i : nat) (ps : list Proc)
    (t : Table) (order : list Job) :
  Forall (pending_ok nn t) ps ->
  Permutation order (done_jobs ps) ->
  fst (run_sequential nn false order t0) = t ->
  exists order',
    Forall (pending_ok nn (fst (step_nth nn false i ps t))) (snd (step_nth nn false i ps t)) /\
    Permutation order' (done_jobs (snd (step_nth nn false i ps t))) /\
    fst (run_sequential nn false order' t0) = fst (step_nth nn false i ps t) /\
    map job_of (snd (step_nth nn false i ps t)) = map job_of ps.
Proof.
  intros Hok HP Hseq.
  destruct (step_nth_spec nn false ps i t) as [E | (l1 & p & l2 & Hps & E)];
    rewrite E; cbn [fst snd]; [exists order; auto|].
  subst ps. apply Forall_app in Hok. destruct Hok as [Hok1 Hok2].
  apply Forall_cons_iff in Hok2. destruct Hok2 as [Hp Hok2].
  assert (Hjobs : forall p', job_of p' = job_of p ->
            map job_of (l1 ++ p' :: l2) = map job_of (l1 ++ p :: l2)).
  { intros p' Hj. rewrite !map_app. cbn [map]. now rewrite Hj. }
  destruct p as [j | j | j | j n | j o]; cbn [step pending_ok] in *.
  - exists order. cbn [fst snd]. repeat split; auto.
    + apply Forall_app. split; [assumption|]. now constructor.
    + now rewrite (done_jobs_same l1 l2 (Fetching j) (Resolving j)).
  - destruct (validate nn j (aggregate_max (token j) t)) as [o|[]] eqn:V; cbn [fst snd].
    + exists (order ++ [j]). repeat split; auto.
      * apply Forall_app. split; [assumption|]. now constructor.
      * now apply (done_jobs_more l1 l2 (Resolving j)).
      * rewrite run_sequential_snoc, Hseq. unfold handler. now rewrite V.
    + exists order. rewrite Hp. repeat split; auto.
      * apply Forall_app. split; [assumption|]. constructor; [|assumption].
        cbn [pending_ok]. split; [assumption|]. now left.
      * now rewrite (done_jobs_same l1 l2 (Resolving j) (Creating j O)).
  - contradiction.
  - destruct Hp as [Hfr Hpend].
    pose proof (handler_when_accepted nn j n t Hfr) as Hwin.
    pose proof (handler_when_clash nn j n t Hfr) as Hlose.
    rewrite create_cases in *. destruct (storable j);
      [|exists (order ++ [j]); cbn [fst snd] in *; repeat split; auto;
        [ apply Forall_app; split; [assumption|]; now constructor
        | now apply (done_jobs_more l1 l2 (Creating j n))
        | rewrite run_sequential_snoc, Hseq; now apply Hlose ]].
    unfold create_rows, insert_rows in *.
    destruct (insert_all (batch_rows j) t) as [t'|] eqn:Eins; cbn [fst snd] in *.
    + assert (Hacc : accepted nn j t).
      { destruct Hpend as [H | H]; [assumption|].
        apply first_taken_clash in H. congruence. }
      pose proof (insert_all_app _ _ _ Eins) as Ht'.
      exists (order ++ [j]). repeat split; auto.
      * assert (Hgrow : forall q, pending_ok nn t q -> pending_ok nn t' q).
        { intros [j'|j'|j'|j' n'|j' o']; cbn [pending_ok]; auto.
          intros [Hfr' Hpend']. split; [assumption|]. subst t'.
          now apply pending_after_append. }
        apply Forall_app. split; [now apply (Forall_impl _ Hgrow)|].
        constructor; [exact I | now apply (Forall_impl _ Hgrow)].
      * now apply (done_jobs_more l1 l2 (Creating j n)).
      * rewrite run_sequential_snoc, Hseq. now apply Hwin.
    + exists (order ++ [j]). repeat split; auto.
      * apply Forall_app. split; [assumption|]. now constructor.
      * now apply (done_jobs_more l1 l2 (Creating j n)).
      * rewrite run_sequential_snoc, Hseq. now apply Hlose.
  - exists order. cbn [fst snd]. repeat split; auto.
    apply Forall_app. split; [assumption|]. now constructor.
Qed.

Lemma run_serial (nn : HelperResult) (t0 : Table) (schedule : list nat) :
  forall (ps : list Proc) (t : Table) (order : list Job),
  Forall (pending_ok nn t) ps ->
  Permutation order (done_jobs ps) ->
  fst (run_sequential nn false order t0) = t ->
  exists order',
    Permutation order' (done_jobs (snd (run nn false schedule (t, ps)))) /\
    fst (run_sequential nn false order' t0) = fst (run nn false schedule (t, ps)) /\
    map job_of (snd (run nn false schedule (t, ps))) = map job_of ps.
Proof.
  induction schedule as [|i rest IH]; intros ps t order Hok HP Hseq.
  - exists order. auto.
  - cbn [run fst snd].
    destruct (step_nth_serial nn t0 i ps t order Hok HP Hseq)
      as (order1 & Hok1 & HP1 & Hseq1 & Hjobs1).
    destruct (step_nth nn false i ps t) as [t1 ps1]. cbn [fst snd] in *.
    destruct (IH ps1 t1 order1 Hok1 HP1 Hseq1) as (order' & HP' & Hseq' & Hjobs').
    exists order'. repeat split; auto. congruence.
Qed.

(** ** Further properties of the handler: what every interleaving keeps *)

Lemma step_unique (nn : HelperResult) (sd : bool) (p : Proc) (t : Table) :
  unique_keys t -> unique_keys (fst (step nn sd p t)).
Proof.
  intros Hu. destruct p as [j | j | j | j n | j o]; cbn [step]; try assumption.
  - destruct (validate nn j (aggregate_max (token j) t)) as [o|[]]; assumption.
  - apply (deleteMany_unique (token j) t Hu).
  - pose proof (create_unique sd j n t Hu) as H.
    destruct (create sd j n t) as [t' o]. exact H.
Qed.

Lemma step_job (nn : HelperResult) (sd : bool) (p : Proc) (t : Table) :
  job_of (snd (step nn sd p t)) = job_of p.
Proof.
  destruct p as [j | j | j | j n | j o]; cbn [step]; try reflexivity.
  - destruct (validate nn j (aggregate_max (token j) t)) as [o|[]]; [reflexivity|].
    now destruct (forceRefresh j).
  - destruct (create sd j n t) as [t' o]. reflexivity.
Qed.

(** A scheme for what every schedule keeps: a property of the table and a
    property of each invocation, kept by every single step. *)
Lemma run_invariant (nn : HelperResult) (sd : bool)
    (T : Table -> Prop) (Q : Table -> Proc -> Prop) :
  (forall p t, T t -> Q t p ->
     T (fst (step nn sd p t)) /\ Q (fst (step nn sd p t)) (snd (step nn sd p t))) ->
  (forall p q t, T t -> Q t p -> Q t q -> Q (fst (step nn sd p t)) q) ->
  forall schedule ps t,
    T t -> Forall (Q t) ps ->
    T (fst (run nn sd schedule (t, ps))) /\
    Forall (Q (fst (run nn sd schedule (t, ps)))) (snd (run nn sd schedule (t, ps))).
Proof.
  intros Hself Hothers. induction schedule as [|i rest IH]; intros ps t HT HQ; [now split|].
  cbn [run fst snd].
  destruct (step_nth_spec nn sd ps i t) as [E | (l1 & p & l2 & Hps & E)]; rewrite E.
  - now apply IH.
  - subst ps. apply Forall_app in HQ. destruct HQ as [HQ1 HQ2].
    apply Forall_cons_iff in HQ2. destruct HQ2 as [HQp HQ2].
    destruct (Hself p t HT HQp) as [HT' HQ'].
    apply IH; [assumption|].
    apply Forall_app. split.
    + apply (Forall_impl _ (fun q => Hothers p q t HT HQp) HQ1).
    + constructor; [assumption|].
      apply (Forall_impl _ (fun q => Hothers p q t HT HQp) HQ2).
Qed.

(** X1: whatever the schedule, whatever the invocations and the state they
    are in, and with or without [skipDuplicates], a table that keeps the
    unique index on (token, timestamp) keeps it. *)
Theorem run_keeps_unique (nn : HelperResult) (sd : bool) (schedule : list nat)
    (ps : list Proc) (t : Table) :
  unique_keys t -> unique_keys (fst (run nn sd schedule (t, ps))).
Proof.
  intros Hu.
  apply (run_invariant nn sd unique_keys (fun _ _ => True)); auto.
  - intros p t0 H _. split; [now apply step_unique | exact I].
  - apply Forall_forall. auto.
Qed.

Lemma run_keeps_unique_witness :
  let t := [mkRow "0xabc" 0 100] in
  let a := mkJob true "0xabc" 86400000 [mkPoint 86400 5] in
  let b := mkJob false "0xabc" 86400000 [mkPoint 86400 7; mkPoint 172800 8] in
  unique_keys (fst (run YieldsNaN true [0; 1; 0; 1; 0; 1; 0]%nat (t, [Fetching a; Fetching b]))).
Proof.
  apply (run_keeps_unique YieldsNaN true [0; 1; 0; 1; 0; 1; 0]%nat
           [Fetching (mkJob true "0xabc" 86400000 [mkPoint 86400 5]);
            Fetching (mkJob false "0xabc" 86400000 [mkPoint 86400 7; mkPoint 172800 8])]
           [mkRow "0xabc" 0 100]).
  unfold unique_keys. simpl. constructor; [simpl; tauto | constructor].
Defined.

Lemma step_other_token (nn : HelperResult) (sd : bool) (p : Proc) (t : Table) (tok : string) :
  token (job_of p) <> tok ->
  rows_of tok (fst (step nn sd p t)) = rows_of tok t.
Proof.
  intros Hne. destruct p as [j | j | j | j n | j o]; cbn [step job_of] in *; try reflexivity.
  - now destruct (validate nn j (aggregate_max (token j) t)) as [o|[]].
  - apply (rows_of_other_deleted (token j) tok t). congruence.
  - destruct (create_adds sd j n t) as [(added & E & Hincl & _) | (e & E & _)]; rewrite E; cbn [fst].
    + now rewrite rows_of_app, (rows_of_other_added tok j added Hne Hincl), app_nil_r.
    + reflexivity.
Qed.

(** X2: whatever the schedule, the rows of a token that none of the
    invocations is for are left as they were, in content and in order. *)
Theorem run_leaves_other_tokens (nn : HelperResult) (sd : bool) (schedule : list nat)
    (ps : list Proc) (t : Table) (tok : string) :
  Forall (fun p => token (job_of p) <> tok) ps ->
  rows_of tok (fst (run nn sd schedule (t, ps))) = rows_of tok t.
Proof.
  intros Hps.
  apply (run_invariant nn sd (fun t' => rows_of tok t' = rows_of tok t)
           (fun _ p => token (job_of p) <> tok)); auto.
  - intros p t0 HT Hp. split.
    + now rewrite step_other_token.
    + now rewrite step_job.
Qed.

Lemma run_leaves_other_tokens_witness :
  let t := [mkRow "0xdef" 0 3; mkRow "0xabc" 0 100; mkRow "0xdef" 86400000 4] in
  let a := mkJob true "0xabc" 86400000 [mkPoint 86400 5] in
  let b := mkJob false "0xabc" 86400000 [mkPoint 86400 7; mkPoint 172800 8] in
  rows_of "0xdef" (fst (run YieldsNaN false [0; 1; 0; 1; 0; 1; 0]%nat (t, [Fetching a; Fetching b])))
  = rows_of "0xdef" t.
Proof.
  apply (run_leaves_other_tokens YieldsNaN false [0; 1; 0; 1; 0; 1; 0]%nat
           [Fetching (mkJob true "0xabc" 86400000 [mkPoint 86400 5]);
            Fetching (mkJob false "0xabc" 86400000 [mkPoint 86400 7; mkPoint 172800 8])]
           [mkRow "0xdef" 0 3; mkRow "0xabc" 0 100; mkRow "0xdef" 86400000 4] "0xdef").
  repeat constructor; discriminate.
Defined.

Lemma step_appending (nn : HelperResult) (sd : bool) (p : Proc) (t : Table) :
  appending p ->
  appending (snd (step nn sd p t)) /\ exists added, fst (step nn sd p t) = t ++ added.
Proof.
  assert (Hsame : exists added : list Row, t = t ++ added)
    by (exists []; now rewrite app_nil_r).
  destruct p as [j | j | j | j n | j o]; cbn [step appending job_of]; intros Hp.
  - now split.
  - destruct (validate nn j (aggregate_max (token j) t)) as [o|[]]; cbn [fst snd].
    + now split.
    + rewrite Hp. now split.
  - contradiction.
  - destruct (create_adds sd j n t) as [(added & E & _) | (e & E & _)]; rewrite E; cbn [fst snd].
    + split; [assumption | now exists added].
    + now split.
  - now split.
Qed.

(** X3: invocations without [forceRefresh] only append: whatever the
    schedule, the table they leave is the table they found followed by new
    rows, so no stored row is removed, moved or given another price. *)
Theorem appends_only_grow (nn : HelperResult) (sd : bool) (schedule : list nat)
    (ps : list Proc) (t : Table) :
  Forall appending ps ->
  exists added, fst (run nn sd schedule (t, ps)) = t ++ added.
Proof.
  intros Hps.
  apply (run_invariant nn sd (fun t' => exists added, t' = t ++ added)
           (fun _ p => appending p)); auto.
  - intros p t0 [added ->] Hp.
    destruct (step_appending nn sd p (t ++ added) Hp) as [Hp' [more ->]].
    split; [|assumption]. exists (added ++ more). now rewrite app_assoc.
  - exists []. now rewrite app_nil_r.
Qed.

Lemma appends_only_grow_witness :
  let t := [mkRow "0xabc" 0 100] in
  let a := mkJob false "0xabc" 86400000 [mkPoint 86400 5] in
  let b := mkJob false "0xabc" 86400000 [mkPoint 86400 7; mkPoint 172800 8] in
  exists added,
    fst (run YieldsNaN true [0; 1; 0; 1; 0; 1]%nat (t, [Fetching a; Fetching b])) = t ++ added.
Proof.
  apply (appends_only_grow YieldsNaN true [0; 1; 0; 1; 0; 1]%nat
           [Fetching (mkJob false "0xabc" 86400000 [mkPoint 86400 5]);
            Fetching (mkJob false "0xabc" 86400000 [mkPoint 86400 7; mkPoint 172800 8])]
           [mkRow "0xabc" 0 100]).
  repeat constructor.
Defined.

Lemma validate_ends (nn : HelperResult) (j : Job) (m : option Date) (o : Outcome) :
  validate nn j m = inl o -> o = Returned \/ o = Threw TypeError.
Proof.
  unfold validate. destruct (prices j) as [|p0 rest]; [intros [= <-]; auto|].
  destruct (expected_epoch nn m) as [e| |]; try (intros [= <-]; auto).
  destruct (timestamp p0 =? e); [discriminate | intros [= <-]; auto].
Qed.

(** X4: with [skipDuplicates: true], as in the first listing of the
    scenario, no schedule makes an invocation end on the unique constraint
    violation: invocations that have not raised it never do. *)
Theorem skip_duplicates_never_raises (nn : HelperResult) (schedule : list nat)
    (ps : list Proc) (t : Table) :
  Forall (fun p => raised_unique p = false) ps ->
  Forall (fun p => raised_unique p = false) (snd (run nn true schedule (t, ps))).
Proof.
  intros Hps.
  apply (run_invariant nn true (fun _ => True) (fun _ p => raised_unique p = false)); auto.
  intros p t0 _ Hp. split; [exact I|].
  destruct p as [j | j | j | j n | j o]; cbn [step]; try reflexivity.
  - destruct (validate nn j (aggregate_max (token j) t0)) as [o|[]] eqn:V; cbn [snd].
    + destruct (validate_ends _ _ _ _ V) as [-> | ->]; reflexivity.
    + now destruct (forceRefresh j).
  - pose proof (create_true_no_unique j n t0) as H.
    destruct (create true j n t0) as [t' o]. cbn [snd] in *.
    destruct o as [ | d c | []]; try reflexivity. now contradiction H.
  - exact Hp.
Qed.

Lemma skip_duplicates_never_raises_witness :
  let t := [mkRow "0xabc" 0 100] in
  let j := mkJob false "0xabc" 86400000 [mkPoint 86400 7] in
  Forall (fun p => raised_unique p = false)
    (snd (run YieldsNaN true [0; 1; 0; 1; 0; 1]%nat (t, [Fetching j; Fetching j]))).
Proof.
  apply (skip_duplicates_never_raises YieldsNaN [0; 1; 0; 1; 0; 1]%nat
           [Fetching (mkJob false "0xabc" 86400000 [mkPoint 86400 7]);
            Fetching (mkJob false "0xabc" 86400000 [mkPoint 86400 7])]
           [mkRow "0xabc" 0 100]).
  repeat constructor.
Defined.

(** ** Further properties of the handler: one invocation *)

Lemma deleteMany_length (tok : string) (t : Table) :
  (length (fst (deleteMany tok t)) + snd (deleteMany tok t) = length t)%nat.
Proof.
  unfold deleteMany, rows_of. cbn [fst snd].
  induction t as [|r t IH]; [reflexivity|]. cbn [filter].
  destruct (of_token tok r); cbn [negb length]; lia.
Qed.

(** X5: the outcome of an invocation that runs alone accounts for what it
    did to the table.  When it ends normally, [deletedCount] is the number
    of rows the token had (0 without [forceRefresh]) and the table has
    lost that many rows and gained [createdCount].  The early [return] and
    the [TypeError] leave the table untouched.  The unique constraint
    violation only arises without [skipDuplicates], and leaves the table as
    it was after the deletes; so do the two refusals of a batch that cannot
    be stored. *)
Theorem handler_accounts (nn : HelperResult) (sd : bool) (j : Job) (t : Table) :
  match snd (handler nn sd j t) with
  | Completed d c =>
      (length (fst (handler nn sd j t)) + d = length t + c)%nat /\
      d = (if forceRefresh j then length (rows_of (token j) t) else O)
  | Returned | Threw TypeError => fst (handler nn sd j t) = t
  | Threw UniqueConstraintViolation =>
      sd = false /\
      fst (handler nn sd j t)
      = (if forceRefresh j then fst (deleteMany (token j) t) else t)
  | Threw ValueTooLong | Threw InvalidDate =>
      storable j = false /\
      fst (handler nn sd j t)
      = (if forceRefresh j then fst (deleteMany (token j) t) else t)
  end.
Proof.
  unfold handler.
  destruct (validate nn j (aggregate_max (token j) t)) as [o|[]] eqn:V.
  - destruct (validate_ends _ _ _ _ V) as [-> | ->]; reflexivity.
  - unfold commit. destruct (forceRefresh j).
    + pose proof (deleteMany_length (token j) t) as Hlen.
      destruct (deleteMany (token j) t) as [t1 d] eqn:D. cbn [fst snd] in *.
      assert (Hd : d = length (rows_of (token j) t)) by (unfold deleteMany in D; congruence).
      destruct (create_outcomes sd j d t1) as [(added & E & _) | [(E & Hsd & _) | (E & Hs)]];
        rewrite E; cbn [fst snd].
      * split; [rewrite length_app; lia | assumption].
      * now split.
      * destruct (refusal_kind j) as [-> | ->]; now split.
    + destruct (create_outcomes sd j O t) as [(added & E & _) | [(E & Hsd & _) | (E & Hs)]];
        rewrite E; cbn [fst snd].
      * split; [rewrite length_app; lia | reflexivity].
      * now split.
      * destruct (refusal_kind j) as [-> | ->]; now split.
Qed.

(** X6: [skipDuplicates: true] changes nothing where the handler without it
    does not raise the unique constraint violation: on such an input the two
    listings leave the same table and report the same outcome. *)
Theorem skip_duplicates_agrees (nn : HelperResult) (j : Job) (t : Table) :
  snd (handler nn false j t) <> Threw UniqueConstraintViolation ->
  handler nn true j t = handler nn false j t.
Proof.
  unfold handler.
  destruct (validate nn j (aggregate_max (token j) t)) as [o|[]]; [reflexivity|].
  unfold commit. destruct (forceRefresh j).
  - destruct (deleteMany (token j) t) as [t1 d]. apply create_skip_agrees.
  - apply create_skip_agrees.
Qed.

Lemma skip_duplicates_agrees_witness :
  let t := [mkRow "0xabc" 0 100] in
  let j := mkJob true "0xabc" 86400000 [mkPoint 86400 7; mkPoint 172800 8] in
  handler YieldsNaN true j t = handler YieldsNaN false j t.
Proof.
  apply (skip_duplicates_agrees YieldsNaN
           (mkJob true "0xabc" 86400000 [mkPoint 86400 7; mkPoint 172800 8])
           [mkRow "0xabc" 0 100]).
  vm_compute. discriminate.
Defined.

(** ** Interleaved appends with [skipDuplicates: true] *)

Lemma lattice_snoc (e0 : Z) (r : nat) :
  lattice e0 (S r) = lattice e0 r ++ [lattice_date e0 r].
Proof. unfold lattice. now rewrite seq_S, map_app. Qed.

Lemma length_lattice (e0 : Z) (r : nat) : length (lattice e0 r) = r.
Proof. unfold lattice. now rewrite length_map, length_seq. Qed.

Lemma lattice_date_mono (e0 : Z) (i k : nat) :
  (i <= k)%nat -> lattice_date e0 i <= lattice_date e0 k.
Proof. unfold lattice_date, time_of_epoch, day_s. lia. Qed.

Lemma lattice_date_inj (e0 : Z) (i k : nat) :
  lattice_date e0 i = lattice_date e0 k -> i = k.
Proof. unfold lattice_date, time_of_epoch, day_s. lia. Qed.

Lemma in_lattice (e0 : Z) (r : nat) (d : Date) :
  In d (lattice e0 r) <-> exists i, (i < r)%nat /\ d = lattice_date e0 i.
Proof.
  unfold lattice. rewrite in_map_iff. split.
  - intros (i & <- & Hi). apply in_seq in Hi. exists i. split; [lia | reflexivity].
  - intros (i & Hi & ->). exists i. split; [reflexivity | apply in_seq; lia].
Qed.

Lemma base_below (nn : HelperResult) (base : list Date) (d : Date) :
  In d base -> d < lattice_date (anchor nn base) 0.
Proof.
  intros Hin. unfold anchor. destruct (max_date base) as [m|] eqn:E.
  - destruct (max_date_spec _ _ E) as [_ Hle]. specialize (Hle d Hin).
    pose proof (next_day_after m) as Hlt.
    unfold lattice_date. rewrite Z.mul_0_l, Z.add_0_r. lia.
  - apply max_date_nil in E. subst base. contradiction.
Qed.

Lemma max_lattice (nn : HelperResult) (base : list Date) (r : nat) :
  max_date (base ++ lattice (anchor nn base) (S r))
  = Some (lattice_date (anchor nn base) r).
Proof.
  apply max_date_unique.
  - apply in_or_app. right. apply in_lattice. exists r. split; [lia | reflexivity].
  - intros d Hd. apply in_app_or in Hd. destruct Hd as [Hd | Hd].
    + pose proof (base_below nn base d Hd).
      pose proof (lattice_date_mono (anchor nn base) 0 r ltac:(lia)). lia.
    + apply in_lattice in Hd. destruct Hd as (i & Hi & ->).
      apply lattice_date_mono. lia.
Qed.

Lemma next_of_lattice (e0 : Z) (r : nat) :
  unixEpoch (addOneDay (lattice_date e0 r)) = e0 + Z.of_nat (S r) * day_s.
Proof.
  unfold unixEpoch, addOneDay, lattice_date, time_of_epoch, day_ms, day_s.
  replace ((e0 + Z.of_nat r * 86400) * 1000 + 86400000)
    with ((e0 + Z.of_nat (S r) * 86400) * 1000) by lia.
  apply Z.div_mul. lia.
Qed.

Lemma lattice_days (e0 : Z) (n : nat) : forall a,
  map day_of (map (lattice_date e0) (seq a n)) = day_run (e0 / day_s + Z.of_nat a) n.
Proof.
  induction n as [|n IH]; intros a; [reflexivity|].
  cbn [seq map day_run]. f_equal.
  - unfold lattice_date. rewrite day_of_epoch. unfold day_s.
    rewrite Z.div_add by lia. reflexivity.
  - rewrite IH. f_equal. lia.
Qed.

Lemma key_in_dates (r : Row) (t : Table) :
  In (key r) (map key t) <-> In (row_timestamp r) (dates_of (row_token r) t).
Proof.
  unfold dates_of, rows_of. rewrite !in_map_iff. split.
  - intros (x & Hk & Hin). injection Hk as Htok Hd. exists x. split; [assumption|].
    apply filter_In. split; [assumption|]. now apply String.eqb_eq.
  - intros (x & Hd & Hin). apply filter_In in Hin. destruct Hin as [Hin Htok].
    apply String.eqb_eq in Htok. exists x. split; [|assumption].
    unfold key. now rewrite Htok, Hd.
Qed.

(** The insert that skips, on a batch of one point a day that starts on the
    lattice at most one day after the last stored one: the dates stay [base]
    followed by days of the lattice, with none lost. *)
Lemma insert_skip_lattice (nn : HelperResult) (tok : string) (base : list Date)
    (ps : list PricePoint) : forall (i r : nat) (t : Table),
  daily_from (anchor nn base + Z.of_nat i * day_s) ps ->
  (i <= r)%nat ->
  dates_of tok t = base ++ lattice (anchor nn base) r ->
  exists r', (r <= r')%nat /\
    dates_of tok (fst (insert_skip (map (to_row tok) ps) t))
    = base ++ lattice (anchor nn base) r'.
Proof.
  induction ps as [|p ps IH]; intros i r t Hd Hir Ht; cbn [map insert_skip].
  - exists r. auto.
  - destruct Hd as [Hp Hrest].
    assert (Hnext : daily_from (anchor nn base + Z.of_nat (S i) * day_s) ps).
    { replace (anchor nn base + Z.of_nat (S i) * day_s)
        with (anchor nn base + Z.of_nat i * day_s + day_s) by lia. exact Hrest. }
    assert (Hdate : row_timestamp (to_row tok p) = lattice_date (anchor nn base) i).
    { unfold to_row, lattice_date. simpl. now rewrite Hp. }
    destruct (has_key (to_row tok p) t) eqn:Hk.
    + assert (Hlt : (i < r)%nat).
      { apply has_key_true, key_in_dates in Hk. rewrite Hdate in Hk.
        change (row_token (to_row tok p)) with tok in Hk. rewrite Ht in Hk.
        apply in_app_or in Hk. destruct Hk as [Hk | Hk].
        - pose proof (base_below nn base _ Hk).
          pose proof (lattice_date_mono (anchor nn base) 0 i ltac:(lia)). lia.
        - apply in_lattice in Hk. destruct Hk as (k & Hk & E).
          apply lattice_date_inj in E. lia. }
      apply (IH (S i) r t Hnext); [lia | assumption].
    + assert (Heq : i = r).
      { apply has_key_false in Hk. rewrite key_in_dates, Hdate in Hk.
        change (row_token (to_row tok p)) with tok in Hk. rewrite Ht in Hk.
        destruct (Nat.eq_dec i r) as [|Hne]; [assumption|]. exfalso. apply Hk.
        apply in_or_app. right. apply in_lattice. exists i. split; [lia | reflexivity]. }
      subst i.
      destruct (IH (S r) (S r) (t ++ [to_row tok p]) Hnext (le_n _)) as (r' & Hr' & E).
      { rewrite dates_of_app, Ht, lattice_snoc, <- app_assoc. do 2 f_equal.
        unfold dates_of, rows_of. cbn [filter]. unfold of_token at 1.
        change (row_token (to_row tok p)) with tok. rewrite String.eqb_refl.
        cbn [map]. now rewrite Hdate. }
      exists r'. split; [lia|].
      destruct (insert_skip (map (to_row tok) ps) (t ++ [to_row tok p])) as [t' n].
      exact E.
Qed.

Lemma on_lattice_grows (nn : HelperResult) (sd : bool) (tok : string) (base : list Date)
    (t : Table) (p : Proc) :
  on_lattice nn tok base t p -> exists added, fst (step nn sd p t) = t ++ added.
Proof.
  intros Hp.
  destruct (is_done p) eqn:Hdone.
  - destruct p; try discriminate. exists []. cbn [step fst]. now rewrite app_nil_r.
  - apply (step_appending nn sd p t).
    destruct p as [j | j | j | j n | j o]; cbn [on_lattice appending job_of] in *;
      try tauto; try discriminate.
    + now destruct Hp as [H _].
    + now destruct Hp as [H _].
    + now destruct Hp as [[H _] _].
Qed.

Lemma expected_anchor (nn : HelperResult) (base : list Date) (e : Z) :
  expected_epoch nn (max_date base) = Yields e -> e = anchor nn base.
Proof.
  unfold expected_epoch, anchor. destruct (max_date base) as [m|].
  - now intros [= <-].
  - now intros ->.
Qed.

Lemma lattice_contiguous (nn : HelperResult) (base : list Date) (r : nat) :
  contiguous base -> contiguous (base ++ lattice (anchor nn base) r).
Proof.
  intros Hc. pose proof (lattice_days (anchor nn base) r O) as Hdays.
  rewrite Z.add_0_r in Hdays. fold (lattice (anchor nn base) r) in Hdays.
  destruct (max_date base) as [m|] eqn:E.
  - apply (contiguous_append _ _ m Hc E).
    rewrite length_lattice, Hdays. f_equal.
    unfold anchor. rewrite E. apply day_of_next.
  - apply max_date_nil in E. subst base. cbn [app].
    apply (contiguous_run _ (anchor nn [] / day_s)). now rewrite length_lattice.
Qed.

(** The table a [createMany] leaves, in either mode: the table as it was,
    or what the insert that skips gives. *)
Lemma create_table_cases (sd : bool) (j : Job) (n : nat) (t : Table) :
  (fst (create sd j n t) = t /\ forall d c, snd (create sd j n t) <> Completed d c) \/
  (fst (create sd j n t) = fst (insert_skip (batch_rows j) t) /\
   exists c, snd (create sd j n t) = Completed n c).
Proof.
  rewrite create_cases. destruct (storable j); [|left; split; [reflexivity | discriminate]].
  unfold create_rows, insert_rows. destruct sd.
  - right. destruct (insert_skip (batch_rows j) t) as [t' c]. cbn [fst snd]. eauto.
  - destruct (insert_all (batch_rows j) t) as [t'|] eqn:Ei.
    + right. rewrite (insert_all_skip _ _ _ Ei). cbn [fst snd]. eauto.
    + left. split; [reflexivity | discriminate].
Qed.

Lemma step_on_lattice (nn : HelperResult) (sd : bool) (tok : string) (base : list Date)
    (p : Proc) (t : Table) :
  (exists r, dates_of tok t = base ++ lattice (anchor nn base) r) ->
  on_lattice nn tok base t p ->
  (exists r, dates_of tok (fst (step nn sd p t)) = base ++ lattice (anchor nn base) r) /\
  on_lattice nn tok base (fst (step nn sd p t)) (snd (step nn sd p t)).
Proof.
  intros [r Ht] Hp.
  destruct p as [j | j | j | j n | j o]; cbn [step on_lattice] in *.
  - split; [now exists r | assumption].
  - destruct (validate nn j (aggregate_max (token j) t)) as [o|[]] eqn:V; cbn [fst snd].
    + split; [now exists r | exact I].
    + split; [now exists r|].
      destruct Hp as (Hfr & Htok & Hdaily). rewrite Hfr. cbn [on_lattice].
      split; [now repeat split|].
      destruct (accepted_first nn j t V) as (p0 & rest & e & Hp0 & He & Hexp).
      assert (Hfrom : daily_from e (prices j)).
      { destruct Hdaily as [start Hd]. rewrite Hp0 in *. destruct Hd as [Hs Hd].
        split; [assumption|]. congruence. }
      rewrite Htok in Hexp. unfold aggregate_max in Hexp. rewrite Ht in Hexp.
      destruct r as [|r0].
      * exists O. cbn [lattice seq map] in Hexp. rewrite app_nil_r in Hexp.
        apply expected_anchor in Hexp. subst e.
        rewrite Z.mul_0_l, Z.add_0_r. split; [congruence|].
        rewrite Ht, length_app. lia.
      * exists (S r0). rewrite max_lattice in Hexp. cbn [expected_epoch] in Hexp.
        injection Hexp as Hexp. rewrite next_of_lattice in Hexp.
        split; [congruence|]. rewrite Ht, length_app, length_lattice. lia.
  - contradiction.
  - destruct Hp as ((Hfr & Htok & Hdaily) & i & Hfrom & Hlen).
    assert (Hir : (i <= r)%nat).
    { rewrite Ht, length_app, length_lattice in Hlen. lia. }
    destruct (insert_skip_lattice nn tok base (prices j) i r t Hfrom Hir Ht) as (r' & _ & E).
    pose proof (create_table_cases sd j n t) as Hcase.
    destruct (create sd j n t) as [t' o]. cbn [fst snd] in *.
    split; [|exact I]. destruct Hcase as [[-> _] | [-> _]]; [now exists r|].
    exists r'. unfold batch_rows. now rewrite Htok.
  - split; [now exists r | exact I].
Qed.

(** X7: with [skipDuplicates: true], appends of one point a day for one
    token, interleaved in any way and stopped anywhere, keep the stored dates
    of the token a run of calendar days without a gap: each invocation adds
    the days that are still missing and skips the ones already there. *)
Theorem skip_duplicates_stays_contiguous (nn : HelperResult) (js : list Job)
    (t : Table) (schedule : list nat) (tok : string) :
  Forall (daily_append tok) js ->
  contiguous (dates_of tok t) ->
  contiguous (dates_of tok (fst (run nn true schedule (t, map Fetching js)))).
Proof.
  intros Hjs Hc.
  set (base := dates_of tok t).
  destruct (run_invariant nn true
              (fun t' => exists r, dates_of tok t' = base ++ lattice (anchor nn base) r)
              (on_lattice nn tok base)) with (schedule := schedule)
              (ps := map Fetching js) (t := t) as [[r Hr] _].
  - intros p t0 HT Hp. now apply step_on_lattice.
  - intros p q t0 _ Hp Hq.
    destruct (on_lattice_grows nn true tok base t0 p Hp) as [added ->].
    destruct q as [j | j | j | j n | j o]; cbn [on_lattice] in *; auto.
    destruct Hq as (Hj & i & Hfrom & Hlen). split; [assumption|].
    exists i. split; [assumption|]. rewrite dates_of_app, length_app. lia.
  - exists O. cbn [lattice seq map]. now rewrite app_nil_r.
  - apply Forall_map. apply (Forall_impl _ (fun j H => H) Hjs).
  - rewrite Hr. now apply lattice_contiguous.
Qed.

(** Three appends for the same token, two of them with the same first day,
    all past step 3 before any of them writes. *)
Lemma skip_duplicates_stays_contiguous_witness :
  let t := [mkRow "0xabc" 0 100] in
  let js := [mkJob false "0xabc" 86400000 [mkPoint 86400 7];
             mkJob false "0xabc" 86400000 [mkPoint 86400 8; mkPoint 172800 9; mkPoint 259200 10];
             mkJob false "0xabc" 86400000 [mkPoint 86400 5; mkPoint 172800 6]] in
  contiguous
    (dates_of "0xabc"
       (fst (run YieldsNaN true [0; 1; 2; 0; 1; 2; 0; 2; 1]%nat (t, map Fetching js)))).
Proof.
  apply (skip_duplicates_stays_contiguous YieldsNaN
           [mkJob false "0xabc" 86400000 [mkPoint 86400 7];
            mkJob false "0xabc" 86400000 [mkPoint 86400 8; mkPoint 172800 9; mkPoint 259200 10];
            mkJob false "0xabc" 86400000 [mkPoint 86400 5; mkPoint 172800 6]]
           [mkRow "0xabc" 0 100] [0; 1; 2; 0; 1; 2; 0; 2; 1]%nat "0xabc").
  - repeat constructor; try (exists 86400; simpl; auto).
  - exists 0, 1%nat. apply Permutation_refl.
Defined.

(** ** Interleaved appends without [skipDuplicates] *)

Lemma run_sequential_keeps_contiguous (nn : HelperResult) (tok : string) (js : list Job) :
  forall t,
  (forall j, In j js -> daily_batch (prices j)) ->
  unique_keys t -> contiguous (dates_of tok t) ->
  unique_keys (fst (run_sequential nn false js t)) /\
  contiguous (dates_of tok (fst (run_sequential nn false js t))).
Proof.
  induction js as [|j js IH]; intros t Hjs Hu Hc; [now split|].
  cbn [run_sequential].
  destruct (handler_keeps_contiguous nn false j t tok
              (daily_consecutive _ (Hjs j (or_introl eq_refl))) Hu Hc) as [Hu1 Hc1].
  destruct (handler nn false j t) as [t1 o]. cbn [fst] in *.
  assert (Hrest : forall j', In j' js -> daily_batch (prices j')) by (intros; apply Hjs; now right).
  specialize (IH t1 Hrest Hu1 Hc1).
  destruct (run_sequential nn false js t1) as [t2 os]. exact IH.
Qed.

Lemma done_jobs_incl (ps : list Proc) : incl (done_jobs ps) (map job_of ps).
Proof.
  unfold done_jobs. intros j Hj. apply in_map_iff in Hj.
  destruct Hj as (p & <- & Hp). apply filter_In in Hp. apply in_map. tauto.
Qed.

(** X8: without [skipDuplicates] too, appends of one point a day,
    interleaved in any way and stopped anywhere, keep the unique index and
    keep the stored dates of every token a run of calendar days without a
    gap: an append that has lost the race fails on the unique index and
    writes nothing. *)
Theorem interleaved_appends_stay_contiguous (nn : HelperResult) (js : list Job)
    (t : Table) (schedule : list nat) (tok : string) :
  Forall (fun j => forceRefresh j = false /\ daily_batch (prices j)) js ->
  unique_keys t ->
  contiguous (dates_of tok t) ->
  unique_keys (fst (run nn false schedule (t, map Fetching js))) /\
  contiguous (dates_of tok (fst (run nn false schedule (t, map Fetching js)))).
Proof.
  intros Hjs Hu Hc.
  assert (Hok : Forall (pending_ok nn t) (map Fetching js)).
  { apply Forall_map. apply (Forall_impl _ (fun j H => proj1 H) Hjs). }
  assert (Hnone : done_jobs (map Fetching js) = []).
  { unfold done_jobs. clear. induction js; simpl; auto. }
  destruct (run_serial nn t schedule (map Fetching js) t [] Hok)
    as (order & HP & Hseq & Hjobs); [now rewrite Hnone | reflexivity |].
  rewrite <- Hseq. apply run_sequential_keeps_contiguous; [|assumption..].
  intros j Hj.
  assert (Hin : In j js).
  { apply (Permutation_in _ HP), done_jobs_incl in Hj.
    rewrite Hjobs, map_map in Hj. cbn [job_of] in Hj. now rewrite map_id in Hj. }
  rewrite Forall_forall in Hjs. now apply Hjs.
Qed.

Lemma interleaved_appends_stay_contiguous_witness :
  let t := [mkRow "0xabc" 0 100] in
  let js := [mkJob false "0xabc" 86400000 [mkPoint 86400 7];
             mkJob false "0xabc" 86400000 [mkPoint 86400 8; mkPoint 172800 9]] in
  unique_keys (fst (run YieldsNaN false [0; 1; 0; 1; 1]%nat (t, map Fetching js))) /\
  contiguous (dates_of "0xabc" (fst (run YieldsNaN false [0; 1; 0; 1; 1]%nat (t, map Fetching js)))).
Proof.
  apply (interleaved_appends_stay_contiguous YieldsNaN
           [mkJob false "0xabc" 86400000 [mkPoint 86400 7];
            mkJob false "0xabc" 86400000 [mkPoint 86400 8; mkPoint 172800 9]]
           [mkRow "0xabc" 0 100] [0; 1; 0; 1; 1]%nat "0xabc").
  - repeat constructor; exists 86400; simpl; auto.
  - unfold unique_keys. simpl. constructor; [simpl; tauto | constructor].
  - exists 0, 1%nat. apply Permutation_refl.
Defined.

(** ** Interleaved appends and the commits of the spec *)













(** ** The fan-out query and the handler *)

Lemma max_date_snoc (ds : list Date) (d : Date) :
  max_date (ds ++ [d])
  = Some (match max_date ds with Some m => Z.max m d | None => d end).
Proof.
  induction ds as [|a ds IH]; [reflexivity|].
  cbn [app max_date]. rewrite IH. destruct (max_date ds) as [m|]; [|reflexivity].
  now rewrite Z.max_assoc.
Qed.

Lemma group_find_row (r : Row) (tok : string) (groups : list (string * Date)) :
  group_find tok (group_row r groups)
  = if of_token tok r
    then Some (match group_find tok groups with
               | Some m => Z.max m (row_timestamp r)
               | None => row_timestamp r
               end)
    else group_find tok groups.
Proof.
  unfold of_token. induction groups as [|[k m] rest IH]; cbn [group_row group_find].
  - reflexivity.
  - destruct (String.eqb_spec (row_token r) k) as [Ek | Hk]; cbn [group_find].
    + subst k. now destruct (String.eqb (row_token r) tok).
    + rewrite IH. destruct (String.eqb_spec k tok) as [Et | Ht]; [|reflexivity].
      subst k. destruct (String.eqb_spec (row_token r) tok); [contradiction | reflexivity].
Qed.

Lemma group_row_keys (r : Row) (groups : list (string * Date)) (tok : string) :
  In tok (map fst (group_row r groups)) -> tok = row_token r \/ In tok (map fst groups).
Proof.
  induction groups as [|[k m] rest IH]; cbn [group_row map fst].
  - intros [<- | []]. now left.
  - destruct (String.eqb (row_token r) k); cbn [map fst].
    + intros [<- | H]; right; [now left | now right].
    + intros [<- | H]; [right; now left|].
      destruct (IH H) as [-> | H']; [now left | right; now right].
Qed.

Lemma group_row_nodup (r : Row) (groups : list (string * Date)) :
  NoDup (map fst groups) -> NoDup (map fst (group_row r groups)).
Proof.
  induction groups as [|[k m] rest IH]; cbn [group_row map fst]; intros Hnd.
  - repeat constructor. intros [].
  - inversion Hnd as [|? ? Hk Hrest]; subst.
    destruct (String.eqb_spec (row_token r) k) as [Ek | Hne]; cbn [map fst].
    + now constructor.
    + constructor; [|now apply IH].
      intros Hin. destruct (group_row_keys r rest k Hin) as [-> | H]; [now apply Hne | contradiction].
Qed.

Lemma group_find_in (groups : list (string * Date)) (tok : string) (m : Date) :
  NoDup (map fst groups) ->
  In (tok, m) groups <-> group_find tok groups = Some m.
Proof.
  induction groups as [|[k m0] rest IH]; cbn [map fst group_find In]; intros Hnd.
  - split; [contradiction | discriminate].
  - inversion Hnd as [|? ? Hk Hrest]; subst.
    destruct (String.eqb_spec k tok) as [-> | Hne].
    + split.
      * intros [[= <-] | Hin]; [reflexivity|].
        exfalso. apply Hk. now apply (in_map fst _ (tok, m)).
      * intros [= <-]. now left.
    + rewrite <- (IH Hrest). split; [|now right].
      intros [[= -> _] | Hin]; [contradiction | assumption].
Qed.

Lemma max_by_token_snoc (t : Table) (r : Row) :
  max_by_token (t ++ [r]) = group_row r (max_by_token t).
Proof. unfold max_by_token. now rewrite fold_left_app. Qed.

(** The groups of the query hold, for each token, what step 2 of the
    handler reads for it. *)
Lemma max_by_token_groups (t : Table) :
  NoDup (map fst (max_by_token t)) /\
  forall tok, group_find tok (max_by_token t) = aggregate_max tok t.
Proof.
  induction t as [|r t [IHnd IHfind]] using rev_ind.
  - split; [constructor | reflexivity].
  - rewrite max_by_token_snoc. split; [now apply group_row_nodup|].
    intros tok. rewrite group_find_row, IHfind.
    unfold aggregate_max. rewrite dates_of_app.
    unfold dates_of at 3 4, rows_of. cbn [filter].
    destruct (of_token tok r); cbn [map].
    + now rewrite max_date_snoc.
    + now rewrite app_nil_r.
Qed.

Lemma in_max_by_token (t : Table) (tok : string) (m : Date) :
  In (tok, m) (max_by_token t) <-> aggregate_max tok t = Some m.
Proof.
  destruct (max_by_token_groups t) as [Hnd Hfind].
  now rewrite (group_find_in _ tok m Hnd), Hfind.
Qed.

Lemma filter_keys_nodup (f : string * Date -> bool) (groups : list (string * Date)) :
  NoDup (map fst groups) -> NoDup (map fst (filter f groups)).
Proof.
  induction groups as [|g rest IH]; cbn [filter map]; intros Hnd; [constructor|].
  inversion Hnd as [|? ? Hk Hrest]; subst.
  destruct (f g); [|now apply IH]. cbn [map]. constructor; [|now apply IH].
  intros Hin. apply Hk. apply in_map_iff in Hin. destruct Hin as (x & Hx & Hin).
  apply filter_In in Hin. apply in_map_iff. exists x. tauto.
Qed.

Lemma fan_out_sel_aux (today : Z) (t : Table) (tok : string) (m : Date) :
  In (tok, m) (fan_out today t)
  <-> aggregate_max tok t = Some m /\ day_of m < today.
Proof.
  unfold fan_out. rewrite filter_In, in_max_by_token.
  cbn [snd]. now rewrite Z.ltb_lt.
Qed.

(** X9: the fan-out query, a grouping of the rows by token read in one
    pass, selects a pair (token, timestamp) exactly when the timestamp is
    the one step 2 of the handler reads for that token and its day is before
    the current day.  So a token without rows is never selected by the
    query, and a token is selected at most once. *)
Theorem fan_out_selects (today : Z) (t : Table) :
  (forall tok m,
     In (tok, m) (fan_out today t)
     <-> aggregate_max tok t = Some m /\ day_of m < today) /\
  (forall tok m, rows_of tok t = [] -> ~ In (tok, m) (fan_out today t)) /\
  NoDup (map fst (fan_out today t)).
Proof.
  assert (Hsel : forall tok m,
            In (tok, m) (fan_out today t)
            <-> aggregate_max tok t = Some m /\ day_of m < today)
    by (intros; apply fan_out_sel_aux).
  split; [exact Hsel|]. split.
  - intros tok m Hnone. rewrite Hsel. apply aggregate_max_none in Hnone.
    rewrite Hnone. intros [H _]. discriminate.
  - unfold fan_out. apply filter_keys_nodup. apply (max_by_token_groups t).
Qed.

(** X10: once an invocation that runs alone has ended normally, with either
    listing, and its batch holds a point of the current day or later, the
    fan-out query no longer selects its token. *)
Theorem committed_token_leaves_fan_out (nn : HelperResult) (sd : bool) (j : Job)
    (t : Table) (today : Z) (p : PricePoint) (d c : nat) :
  snd (handler nn sd j t) = Completed d c ->
  In p (prices j) ->
  today <= calendar_day (timestamp p) ->
  Forall (fun tm => fst tm <> token j) (fan_out today (fst (handler nn sd j t))).
Proof.
  intros Hdone Hp Htoday. apply Forall_forall. intros [tok m] Hin Heq.
  cbn [fst] in Heq. subst tok.
  destruct (fan_out_sel_aux today (fst (handler nn sd j t)) (token j) m) as [Hsel _].
  destruct (Hsel Hin) as [Hmax Hday].
  assert (Hkey : In (key (to_row (token j) p)) (map key (fst (handler nn sd j t)))).
  { assert (Hrow : In (to_row (token j) p) (batch_rows j)) by now apply in_map.
    unfold handler, commit in *.
    destruct (validate nn j (aggregate_max (token j) t)) as [o|[]] eqn:V.
    - cbn [snd] in Hdone. subst o. destruct (validate_ends _ _ _ _ V); discriminate.
    - destruct (forceRefresh j).
      + destruct (deleteMany (token j) t) as [t1 n].
        destruct (create sd j n t1) as [t' o] eqn:E. cbn [fst snd] in *. subst o.
        apply (created_rows_covered _ _ _ _ _ _ _ _ E Hrow).
      + destruct (create sd j O t) as [t' o] eqn:E. cbn [fst snd] in *. subst o.
        apply (created_rows_covered _ _ _ _ _ _ _ _ E Hrow). }
  destruct (aggregate_max_bound (token j) _ _ Hkey eq_refl) as (m' & Hm' & Hle).
  rewrite Hmax in Hm'. injection Hm' as <-.
  apply day_of_mono in Hle. cbn [to_row row_timestamp] in Hle.
  rewrite day_of_epoch in Hle. unfold calendar_day in Htoday. lia.
Qed.

(** The token is a day behind on day 2; the append brings day 1 and day 2. *)
Lemma committed_token_leaves_fan_out_witness :
  let t := [mkRow "0xabc" 0 100; mkRow "0xdef" 0 3] in
  let j := mkJob false "0xabc" 0 [mkPoint 86400 7; mkPoint 172800 8] in
  Forall (fun tm => fst tm <> "0xabc"%string) (fan_out 2 (fst (handler YieldsNaN false j t))).
Proof.
  apply (committed_token_leaves_fan_out YieldsNaN false
           (mkJob false "0xabc" 0 [mkPoint 86400 7; mkPoint 172800 8])
           [mkRow "0xabc" 0 100; mkRow "0xdef" 0 3] 2 (mkPoint 172800 8) 0 2).
  - reflexivity.
  - simpl. auto.
  - vm_compute. discriminate.
Defined.

(** Before that append the query selects both tokens, after it only the
    other one. *)
Example fan_out_scenario :
  let t := [mkRow "0xabc" 0 100; mkRow "0xdef" 0 3] in
  let j := mkJob false "0xabc" 0 [mkPoint 86400 7; mkPoint 172800 8] in
  fan_out 2 t = [("0xabc"%string, 0); ("0xdef"%string, 0)] /\
  fan_out 2 (fst (handler YieldsNaN false j t)) = [("0xdef"%string, 0)].
Proof. split; reflexivity. Qed.

(** ** Appending day after day *)

Lemma daily_from_app (a b : list PricePoint) : forall start,
  daily_from start (a ++ b) <->
  daily_from start a /\ daily_from (start + Z.of_nat (length a) * day_s) b.
Proof.
  induction a as [|p a IH]; intros start; cbn [app daily_from length].
  - rewrite Z.mul_0_l, Z.add_0_r. tauto.
  - rewrite IH.
    replace (start + day_s + Z.of_nat (length a) * day_s)
      with (start + Z.of_nat (S (length a)) * day_s) by lia.
    tauto.
Qed.

Lemma daily_lattice (e0 : Z) (ps : list PricePoint) : forall a,
  daily_from (e0 + Z.of_nat a * day_s) ps ->
  map (fun p => time_of_epoch (timestamp p)) ps
  = map (lattice_date e0) (seq a (length ps)).
Proof.
  induction ps as [|p ps IH]; intros a H; [reflexivity|].
  destruct H as [Hp Hrest]. cbn [map length seq]. f_equal.
  - unfold lattice_date. now rewrite Hp.
  - apply IH.
    replace (e0 + Z.of_nat (S a) * day_s) with (e0 + Z.of_nat a * day_s + day_s) by lia.
    exact Hrest.
Qed.

(** An accepted append of one point a day that can be stored and runs
    alone, with either listing. *)
Lemma append_alone (nn : HelperResult) (sd : bool) (j : Job) (t : Table) :
  forceRefresh j = false ->
  accepted nn j t ->
  daily_batch (prices j) ->
  storable j = true ->
  handler nn sd j t = (t ++ batch_rows j, Completed O (length (prices j))).
Proof.
  intros Hfr Hacc Hdaily Hs. unfold handler. rewrite Hacc.
  rewrite (commit_no_refresh sd j t Hfr). apply create_fresh.
  - exact Hs.
  - apply batch_keys_nodup. destruct Hdaily as [start Hd].
    apply (daily_from_bounds _ _ Hd).
  - now apply (accepted_batch_fresh nn).
Qed.

(** An invocation that ends normally has passed step 3 with a batch that
    can be stored. *)
Lemma handler_completed (nn : HelperResult) (sd : bool) (j : Job) (t : Table) (d c : nat) :
  snd (handler nn sd j t) = Completed d c ->
  accepted nn j t /\ storable j = true.
Proof.
  unfold handler, accepted.
  destruct (validate nn j (aggregate_max (token j) t)) as [o|[]] eqn:V.
  - cbn [snd]. intros ->. destruct (validate_ends _ _ _ _ V); discriminate.
  - intros H. split; [reflexivity|]. unfold commit in H. destruct (forceRefresh j).
    + destruct (deleteMany (token j) t) as [t1 n].
      destruct (create sd j n t1) as [t' o] eqn:E. cbn [snd] in H. subst o.
      apply (create_completed _ _ _ _ _ _ _ E).
    + destruct (create sd j O t) as [t' o] eqn:E. cbn [snd] in H. subst o.
      apply (create_completed _ _ _ _ _ _ _ E).
Qed.

Lemma storable_parts (j1 j2 j12 : Job) :
  token j1 = token j12 -> token j2 = token j12 ->
  prices j12 = prices j1 ++ prices j2 ->
  prices j1 <> [] ->
  storable j12 = true -> storable j1 = true /\ storable j2 = true.
Proof.
  unfold storable. intros -> -> -> Hne H.
  apply andb_true_iff in H. destruct H as [Hv Hf].
  rewrite forallb_app in Hv. apply andb_true_iff in Hv. destruct Hv as [-> ->].
  destruct (prices j1) as [|p0 rest]; [contradiction|]. cbn [app] in Hf.
  rewrite orb_false_r in Hf. rewrite Hf. split; reflexivity.
Qed.

(** X11: appends compose, with either listing.  When an append of a batch
    of one point a day ends normally, an append of its first days followed
    by an append of the days that remain both end normally, having inserted
    all their points, and leave the table that the one append of the whole
    batch leaves: the second append finds the latest date where the first
    one left it. *)
Theorem appends_compose (nn : HelperResult) (sd : bool) (j1 j2 j12 : Job) (t : Table)
    (d c : nat) :
  forceRefresh j1 = false -> forceRefresh j2 = false -> forceRefresh j12 = false ->
  token j1 = token j12 -> token j2 = token j12 ->
  prices j12 = prices j1 ++ prices j2 ->
  prices j1 <> [] -> prices j2 <> [] ->
  daily_batch (prices j12) ->
  snd (handler nn sd j12 t) = Completed d c ->
  snd (handler nn sd j1 t) = Completed O (length (prices j1)) /\
  snd (handler nn sd j2 (fst (handler nn sd j1 t))) = Completed O (length (prices j2)) /\
  fst (handler nn sd j2 (fst (handler nn sd j1 t))) = fst (handler nn sd j12 t).
Proof.
  intros Hfr1 Hfr2 Hfr12 Htok1 Htok2 Hps Hne1 Hne2 [start Hd] Hdone.
  destruct (handler_completed nn sd j12 t d c Hdone) as [Hacc12 Hs12].
  destruct (storable_parts j1 j2 j12 Htok1 Htok2 Hps Hne1 Hs12) as [Hs1 Hs2].
  rewrite Hps in Hd. apply daily_from_app in Hd. destruct Hd as [Hd1 Hd2].
  destruct (accepted_first nn j12 t Hacc12) as (p0 & rest & e & Hp0 & He & Hexp).
  destruct (prices j1) as [|q0 rest1] eqn:Hp1; [contradiction|].
  assert (Hq0 : q0 = p0) by (rewrite Hps in Hp0; now injection Hp0).
  subst q0.
  assert (Hstart : start = e) by (destruct Hd1 as [H _]; congruence).
  subst start.
  assert (Hacc1 : accepted nn j1 t).
  { unfold accepted, validate. rewrite Hp1, Htok1, Hexp, He. now rewrite Z.eqb_refl. }
  assert (Hdaily1 : daily_batch (prices j1)) by (exists e; now rewrite Hp1).
  rewrite (append_alone nn sd j1 t Hfr1 Hacc1 Hdaily1 Hs1). cbn [fst snd].
  assert (Hanchor : e = anchor nn (dates_of (token j12) t)).
  { apply expected_anchor. exact Hexp. }
  set (base := dates_of (token j12) t) in *.
  assert (Hdates1 : dates_of (token j12) (t ++ batch_rows j1)
                    = base ++ lattice (anchor nn base) (length (prices j1))).
  { rewrite dates_of_app. fold base. f_equal. rewrite <- Htok1, dates_of_batch.
    rewrite Hp1. rewrite (daily_lattice (anchor nn base) (p0 :: rest1) O); [reflexivity|].
    rewrite Z.mul_0_l, Z.add_0_r, <- Hanchor. exact Hd1. }
  assert (Hacc2 : accepted nn j2 (t ++ batch_rows j1)).
  { unfold accepted. rewrite Htok2. unfold aggregate_max. rewrite Hdates1, Hp1.
    cbn [length]. rewrite max_lattice.
    destruct (prices j2) as [|q0 rest2] eqn:Hp2; [contradiction|].
    rewrite (validate_some nn j2 _ q0 rest2 Hp2), next_of_lattice, <- Hanchor.
    destruct Hd2 as [Hq _]. cbn [length] in Hq. rewrite Hq. now rewrite Z.eqb_refl. }
  assert (Hdaily2 : daily_batch (prices j2)) by (eexists; exact Hd2).
  rewrite (append_alone nn sd j2 _ Hfr2 Hacc2 Hdaily2 Hs2). cbn [fst snd].
  assert (Hdaily12 : daily_batch (prices j12)).
  { exists e. rewrite Hps. apply daily_from_app. now split. }
  rewrite (append_alone nn sd j12 t Hfr12 Hacc12 Hdaily12 Hs12). cbn [fst].
  rewrite Hp1. split; [reflexivity|]. split; [reflexivity|].
  rewrite <- app_assoc. f_equal. unfold batch_rows.
  now rewrite Hps, map_app, Htok1, Htok2, Hp1.
Qed.

Lemma appends_compose_witness :
  let t := [mkRow "0xabc" 0 100] in
  let j1 := mkJob false "0xabc" 0 [mkPoint 86400 7] in
  let j2 := mkJob false "0xabc" 86400000 [mkPoint 172800 8; mkPoint 259200 9] in
  let j12 := mkJob false "0xabc" 0 [mkPoint 86400 7; mkPoint 172800 8; mkPoint 259200 9] in
  snd (handler YieldsNaN false j1 t) = Completed O 1 /\
  snd (handler YieldsNaN false j2 (fst (handler YieldsNaN false j1 t))) = Completed O 2 /\
  fst (handler YieldsNaN false j2 (fst (handler YieldsNaN false j1 t)))
  = fst (handler YieldsNaN false j12 t).
Proof.
  apply (appends_compose YieldsNaN false
           (mkJob false "0xabc" 0 [mkPoint 86400 7])
           (mkJob false "0xabc" 86400000 [mkPoint 172800 8; mkPoint 259200 9])
           (mkJob false "0xabc" 0 [mkPoint 86400 7; mkPoint 172800 8; mkPoint 259200 9])
           [mkRow "0xabc" 0 100] 0 3);
    try reflexivity; try discriminate.
  exists 86400. simpl. auto.
Defined.

(** ** The counts *)

Lemma total_app (f : Proc -> nat) (l1 l2 : list Proc) :
  total f (l1 ++ l2) = (total f l1 + total f l2)%nat.
Proof.
  unfold total. induction l1 as [|p l1 IH]; cbn [app fold_right]; [reflexivity|].
  rewrite IH. lia.
Qed.

(** What lets the counts be kept: the listing skips duplicates and the
    batch can be stored, so that nothing raises after a [deleteMany]; or the
    invocation deletes nothing. *)
Lemma step_balance (nn : HelperResult) (sd : bool) (p : Proc) (t : Table) :
  (sd = true /\ storable (job_of p) = true) \/ (appending p /\ deleted_so_far p = O) ->
  (length (fst (step nn sd p t)) + deleted_so_far (snd (step nn sd p t)) + created_so_far p
   = length t + deleted_so_far p + created_so_far (snd (step nn sd p t)))%nat /\
  (appending p /\ deleted_so_far p = O ->
   appending (snd (step nn sd p t)) /\ deleted_so_far (snd (step nn sd p t)) = O).
Proof.
  intros Hmode. split.
  - destruct p as [j | j | j | j n | j o]; cbn [step].
    + reflexivity.
    + destruct (validate nn j (aggregate_max (token j) t)) as [o|[]] eqn:V; cbn [fst snd].
      * destruct (validate_never_creates _ _ _ _ V) as [Hc Hd].
        cbn [deleted_so_far created_so_far]. lia.
      * destruct (forceRefresh j); cbn [deleted_so_far created_so_far]; lia.
    + pose proof (deleteMany_length (token j) t) as Hlen.
      destruct (deleteMany (token j) t) as [t1 d].
      cbn [fst snd deleted_so_far created_so_far] in *. lia.
    + cbn [job_of deleted_so_far] in Hmode.
      destruct (create_outcomes sd j n t) as [(added & E & _) | [(E & Hsd & _) | (E & Hs)]];
        rewrite E;
        cbn [fst snd deleted_so_far created_so_far deleted_count created_count].
      * rewrite length_app. lia.
      * destruct Hmode as [[Hmode _] | [_ Hzero]]; [congruence | lia].
      * destruct Hmode as [[_ Hmode] | [_ Hzero]]; [congruence | lia].
    + cbn [fst snd]. lia.
  - intros [Hp Hzero]. split; [now apply step_appending|].
    destruct p as [j | j | j | j n | j o]; cbn [step appending job_of] in *.
    + reflexivity.
    + destruct (validate nn j (aggregate_max (token j) t)) as [o|[]] eqn:V; cbn [snd].
      * apply (validate_never_creates _ _ _ _ V).
      * now rewrite Hp.
    + contradiction.
    + cbn [deleted_so_far] in Hzero. subst n.
      destruct (create_adds sd j O t) as [(added & E & _) | (e & E & _)]; rewrite E; reflexivity.
    + exact Hzero.
Qed.

Lemma run_balance (nn : HelperResult) (sd : bool) (schedule : list nat) :
  forall (ps : list Proc) (t : Table),
  Forall (fun p => (sd = true /\ storable (job_of p) = true) \/
                   (appending p /\ deleted_so_far p = O)) ps ->
  (length (fst (run nn sd schedule (t, ps)))
   + total deleted_so_far (snd (run nn sd schedule (t, ps))) + total created_so_far ps
   = length t + total deleted_so_far ps
     + total created_so_far (snd (run nn sd schedule (t, ps))))%nat.
Proof.
  induction schedule as [|i rest IH]; intros ps t Hmode; [cbn [run fst snd]; lia|].
  cbn [run fst snd].
  destruct (step_nth_spec nn sd ps i t) as [E | (l1 & p & l2 & Hps & E)]; rewrite E.
  - now apply IH.
  - subst ps. apply Forall_app in Hmode. destruct Hmode as [H1 H2].
    apply Forall_cons_iff in H2. destruct H2 as [Hp H2].
    destruct (step_balance nn sd p t Hp) as [Hbal Hkeep].
    assert (Hmode' : Forall (fun q => (sd = true /\ storable (job_of q) = true) \/
                                      (appending q /\ deleted_so_far q = O))
                       (l1 ++ snd (step nn sd p t) :: l2)).
    { apply Forall_app. split; [assumption|]. constructor; [|assumption].
      destruct Hp as [Hp | Hp]; [left; now rewrite step_job | right; now apply Hkeep]. }
    specialize (IH _ (fst (step nn sd p t)) Hmode').
    rewrite !total_app in *. unfold total in *. cbn [fold_right] in *. lia.
Qed.

(** X12: the counts add up across invocations.  Where the listing skips
    duplicates and every batch can be stored, or where no invocation has
    [forceRefresh], whatever the schedule, the size of the table is the
    size it had, less the rows the invocations hold as deleted, plus the
    rows they report as created. *)
Theorem counts_add_up (nn : HelperResult) (sd : bool) (js : list Job) (t : Table)
    (schedule : list nat) :
  (sd = true /\ Forall (fun j => storable j = true) js) \/
  Forall (fun j => forceRefresh j = false) js ->
  (length (fst (run nn sd schedule (t, map Fetching js)))
   + total deleted_so_far (snd (run nn sd schedule (t, map Fetching js)))
   = length t
     + total created_so_far (snd (run nn sd schedule (t, map Fetching js))))%nat.
Proof.
  intros Hmode.
  assert (Hzero : forall f, (forall j, f (Fetching j) = O) -> total f (map Fetching js) = O).
  { intros f Hf. unfold total. clear Hmode.
    induction js as [|j l IH]; cbn [map fold_right]; [reflexivity|].
    rewrite Hf. exact IH. }
  pose proof (run_balance nn sd schedule (map Fetching js) t) as Hbal.
  rewrite (Hzero deleted_so_far), (Hzero created_so_far) in Hbal by reflexivity.
  rewrite !Nat.add_0_r in Hbal. apply Hbal.
  apply Forall_map. destruct Hmode as [[Hsd H] | H].
  - apply (Forall_impl _ (fun j Hj => or_introl (conj Hsd Hj)) H).
  - apply (Forall_impl _ (fun j Hj => or_intror (conj Hj eq_refl)) H).
Qed.

(** A refresh and an append for the same day, interleaved. *)
Lemma counts_add_up_witness :
  let t := [mkRow "0xabc" 0 100; mkRow "0xdef" 0 3] in
  let js := [mkJob true "0xabc" 86400000 [mkPoint 86400 5; mkPoint 172800 6];
             mkJob false "0xabc" 86400000 [mkPoint 86400 7]] in
  (length (fst (run YieldsNaN true [0; 1; 0; 1; 0; 1; 0]%nat (t, map Fetching js)))
   + total deleted_so_far (snd (run YieldsNaN true [0; 1; 0; 1; 0; 1; 0]%nat (t, map Fetching js)))
   = length t
     + total created_so_far (snd (run YieldsNaN true [0; 1; 0; 1; 0; 1; 0]%nat (t, map Fetching js))))%nat.
Proof.
  apply (counts_add_up YieldsNaN true
           [mkJob true "0xabc" 86400000 [mkPoint 86400 5; mkPoint 172800 6];
            mkJob false "0xabc" 86400000 [mkPoint 86400 7]]
           [mkRow "0xabc" 0 100; mkRow "0xdef" 0 3] [0; 1; 0; 1; 0; 1; 0]%nat).
  left. split; [reflexivity | repeat constructor].
Defined.

(** ** Replaying a job that has succeeded *)

(** X13: a job that has ended normally and is run again right after, with
    or without [forceRefresh] and with either listing, stops at the early
    [return] of step 3: nothing is deleted again, nothing is inserted. *)
Theorem replay_after_success_returns (nn : HelperResult) (sd : bool) (j : Job) (t : Table)
    (d c : nat) :
  snd (handler nn sd j t) = Completed d c ->
  handler nn sd j (fst (handler nn sd j t)) = (fst (handler nn sd j t), Returned).
Proof.
  intros Hdone.
  assert (Hfirst : exists p0 rest, prices j = p0 :: rest /\
            In (key (to_row (token j) p0)) (map key (fst (handler nn sd j t)))).
  { unfold handler in *.
    destruct (validate nn j (aggregate_max (token j) t)) as [o|[]] eqn:V.
    - cbn [snd] in Hdone. subst o. destruct (validate_ends _ _ _ _ V); discriminate.
    - destruct (validate_first _ _ _ V) as (p0 & rest & Hp).
      exists p0, rest. split; [assumption|].
      assert (Hrow : In (to_row (token j) p0) (batch_rows j)).
      { unfold batch_rows. rewrite Hp. now left. }
      unfold commit in *. destruct (forceRefresh j).
      + destruct (deleteMany (token j) t) as [t1 n].
        destruct (create sd j n t1) as [t' o] eqn:E. cbn [fst snd] in *. subst o.
        apply (created_rows_covered _ _ _ _ _ _ _ _ E Hrow).
      + destruct (create sd j O t) as [t' o] eqn:E. cbn [fst snd] in *. subst o.
        apply (created_rows_covered _ _ _ _ _ _ _ _ E Hrow). }
  destruct Hfirst as (p0 & rest & Hp & Hkey).
  destruct (aggregate_max_bound (token j) _ _ Hkey eq_refl) as (m & Hm & Hle).
  unfold handler at 1. rewrite Hm.
  now rewrite (validate_behind nn j m p0 rest Hp Hle).
Qed.

Lemma replay_after_success_returns_witness :
  let t := [mkRow "0xabc" 0 100; mkRow "0xabc" 86400000 101] in
  let j := mkJob true "0xabc" 172800000 [mkPoint 172800 7; mkPoint 259200 8] in
  handler YieldsNaN false j (fst (handler YieldsNaN false j t))
  = (fst (handler YieldsNaN false j t), Returned).
Proof.
  apply (replay_after_success_returns YieldsNaN false
           (mkJob true "0xabc" 172800000 [mkPoint 172800 7; mkPoint 259200 8])
           [mkRow "0xabc" 0 100; mkRow "0xabc" 86400000 101] 2 2).
  reflexivity.
Defined.

(** ** A refresh of a token without rows *)

(** X14: for a token that has no row, [forceRefresh] makes no difference:
    the [deleteMany] removes nothing and reports 0, and the invocation
    leaves the table and the outcome of the same job without it. *)
Theorem refresh_without_rows (nn : HelperResult) (sd : bool) (tok : string)
    (start : Date) (ps : list PricePoint) (t : Table) :
  rows_of tok t = [] ->
  deleteMany tok t = (t, O) /\
  handler nn sd (mkJob true tok start ps) t = handler nn sd (mkJob false tok start ps) t.
Proof.
  intros Hnone. pose proof (deleteMany_none tok t Hnone) as Hdel.
  split; [exact Hdel|].
  unfold handler, validate. cbn [prices token].
  destruct ps as [|p0 rest]; [reflexivity|].
  destruct (expected_epoch nn (aggregate_max tok t)) as [e| |]; try reflexivity.
  destruct (timestamp p0 =? e); [|reflexivity].
  unfold commit. cbn [forceRefresh token]. rewrite Hdel.
  unfold create, batch_data. reflexivity.
Qed.

Lemma refresh_without_rows_witness :
  let t := [mkRow "0xdef" 0 3] in
  deleteMany "0xabc" t = (t, O) /\
  handler (Yields 86400) false (mkJob true "0xabc" 0 [mkPoint 86400 7]) t
  = handler (Yields 86400) false (mkJob false "0xabc" 0 [mkPoint 86400 7]) t.
Proof.
  apply (refresh_without_rows (Yields 86400) false "0xabc" 0 [mkPoint 86400 7]
           [mkRow "0xdef" 0 3]).
  reflexivity.
Defined.
